(** * Draw-lots state codec and draw transition (pages/index.js)

    Shallow embedding of the state codec ([base64UrlEncode],
    [base64UrlDecode], [encodeState], [decodeState]), of the initial
    link of [createInitialLink] and of the draw transition ([drawOne])
    of pages/index.js.

    Representation choices:
    - a JavaScript string is a [list Z] of UTF-16 code units;
    - a number produced by [parseInt] is a [jsnum]: an integer that is a
      double, or [JInf]; arithmetic on such numbers rounds to the nearest
      double (53-bit significand, ties to even), see [round53] and
      [floor_div1000];
    - a number read by [JSON.parse] is an exact rational [Q];
    - [Math.random()] is a rational [r] with [0 <= r < 1];
    - [Date.now()] is an integer argument [now]. *)

From Stdlib Require Import ZArith QArith Qround List Lia String Ascii Bool Permutation.
Import ListNotations.
Open Scope Z_scope.

(** ** JavaScript strings *)

Module JsStr.

(** The code units of an ASCII literal. *)
Definition js (s : string) : list Z :=
  map (fun a => Z.of_nat (nat_of_ascii a)) (list_ascii_of_string s).

(** [String(i)] for a non-negative integer below 10 (pool indices). *)
Definition string_of_index (i : Z) : list Z := [48 + i].

End JsStr.
Import JsStr.

(** ** [atob]: the forgiving-base64 decode of the HTML standard *)

Module B64.

Definition is_ascii_ws (c : Z) : bool :=
  (c =? 9) || (c =? 10) || (c =? 12) || (c =? 13) || (c =? 32).

(** Index of a character in the standard base64 alphabet. *)
Definition b64_index (c : Z) : option Z :=
  if (65 <=? c) && (c <=? 90) then Some (c - 65)
  else if (97 <=? c) && (c <=? 122) then Some (c - 71)
  else if (48 <=? c) && (c <=? 57) then Some (c + 4)
  else if c =? 43 then Some 62
  else if c =? 47 then Some 63
  else None.

(** Step 3 of forgiving-base64 decode: when the length is a multiple
    of 4, drop one or two trailing [=]. *)
Definition strip_padding (d : list Z) : list Z :=
  if Z.of_nat (List.length d) mod 4 =? 0 then
    match rev d with
    | a :: b :: r =>
        if (a =? 61) && (b =? 61) then rev r
        else if a =? 61 then rev (b :: r) else d
    | [a] => if a =? 61 then [] else d
    | [] => d
    end
  else d.

Fixpoint indices (d : list Z) : option (list Z) :=
  match d with
  | [] => Some []
  | c :: r =>
      match b64_index c, indices r with
      | Some i, Some is => Some (i :: is)
      | _, _ => None
      end
  end.

(** Bytes of groups of sextets: four sextets give three bytes; a trailing
    group of 12 (resp. 18) bits gives one (resp. two) bytes, discarding the
    low 4 (resp. 2) bits. *)
Fixpoint sextets_to_bytes (l : list Z) : list Z :=
  match l with
  | a :: b :: c :: d :: r =>
      let n := a * 262144 + b * 4096 + c * 64 + d in
      n / 65536 :: (n / 256) mod 256 :: n mod 256 :: sextets_to_bytes r
  | [a; b; c] =>
      let n := a * 4096 + b * 64 + c in [n / 1024; (n / 4) mod 256]
  | [a; b] => [(a * 64 + b) / 16]
  | _ => []
  end.

(** [atob(s)]: [None] is the [InvalidCharacterError] it throws. *)
Definition atob (s : list Z) : option (list Z) :=
  let d := strip_padding (filter (fun c => negb (is_ascii_ws c)) s) in
  if Z.of_nat (List.length d) mod 4 =? 1 then None
  else match indices d with
       | Some is => Some (sextets_to_bytes is)
       | None => None
       end.

End B64.

(** ** [decodeURIComponent] on the [%hh] escapes of a byte string *)

Module Utf8.

Definition is_cont (b : Z) : bool := (128 <=? b) && (b <=? 191).

(** [UTF16EncodeCodePoint]. *)
Definition utf16 (cp : Z) : list Z :=
  if cp <=? 65535 then [cp]
  else [55296 + (cp - 65536) / 1024; 56320 + (cp - 65536) mod 1024].

(** [base64UrlDecode] turns every byte [b] of [atob]'s output into the
    escape [%hh] and passes the result to [decodeURIComponent]; since every
    character is then an escape, [decodeURIComponent] reads the bytes as
    UTF-8 and throws [URIError] (here [None]) on a leading continuation
    byte, a lead byte above [0xF7], a missing or wrong continuation byte,
    an overlong form, a surrogate or a code point above [0x10FFFF]. *)
Fixpoint decode (l : list Z) : option (list Z) :=
  match l with
  | [] => Some []
  | b1 :: r1 =>
      if b1 <? 128 then
        option_map (fun t => b1 :: t) (decode r1)
      else if (192 <=? b1) && (b1 <=? 223) then
        match r1 with
        | b2 :: r2 =>
            let cp := (b1 - 192) * 64 + (b2 - 128) in
            if is_cont b2 && (128 <=? cp)
            then option_map (fun t => utf16 cp ++ t) (decode r2) else None
        | [] => None
        end
      else if (224 <=? b1) && (b1 <=? 239) then
        match r1 with
        | b2 :: b3 :: r3 =>
            let cp := (b1 - 224) * 4096 + (b2 - 128) * 64 + (b3 - 128) in
            if is_cont b2 && is_cont b3 && (2048 <=? cp)
               && negb ((55296 <=? cp) && (cp <=? 57343))
            then option_map (fun t => utf16 cp ++ t) (decode r3) else None
        | _ => None
        end
      else if (240 <=? b1) && (b1 <=? 247) then
        match r1 with
        | b2 :: b3 :: b4 :: r4 =>
            let cp := (b1 - 240) * 262144 + (b2 - 128) * 4096
                      + (b3 - 128) * 64 + (b4 - 128) in
            if is_cont b2 && is_cont b3 && is_cont b4
               && (65536 <=? cp) && (cp <=? 1114111)
            then option_map (fun t => utf16 cp ++ t) (decode r4) else None
        | _ => None
        end
      else None
  end.

End Utf8.

(** ** [base64UrlDecode] *)

Definition url_to_std (c : Z) : Z :=
  if c =? 45 then 43 else if c =? 95 then 47 else c.

(** [while (s.length % 4) s += '='] *)
Definition pad4 (s : list Z) : list Z :=
  s ++ repeat 61 ((4 - Nat.modulo (List.length s) 4) mod 4)%nat.

Definition base64UrlDecode (s : list Z) : option (list Z) :=
  match s with
  | [] => None
  | _ =>
      match B64.atob (pad4 (map url_to_std s)) with
      | Some str => Utf8.decode str
      | None => None
      end
  end.

(** ** [JSON.parse] *)

Module Json.

#[local] Set Warnings "-register-all".

Inductive json :=
| JNull
| JBool (b : bool)
| JNum (q : Q)
| JStr (s : list Z)
| JArr (l : list json)
| JObj (fields : list (list Z * json)).

Definition is_ws (c : Z) : bool := (c =? 9) || (c =? 10) || (c =? 13) || (c =? 32).

Fixpoint skip_ws (s : list Z) : list Z :=
  match s with
  | c :: r => if is_ws c then skip_ws r else s
  | [] => []
  end.

Definition is_digit (c : Z) : bool := (48 <=? c) && (c <=? 57).

Definition hex_val (c : Z) : option Z :=
  if is_digit c then Some (c - 48)
  else if (97 <=? c) && (c <=? 102) then Some (c - 87)
  else if (65 <=? c) && (c <=? 70) then Some (c - 55)
  else None.

(** The body of a string literal after its opening quote: the code units
    up to the closing quote, with escapes resolved. *)
Fixpoint string_body (s : list Z) : option (list Z * list Z) :=
  match s with
  | [] => None
  | c :: r =>
      if c =? 34 then Some ([], r)
      else if c =? 92 then
        match r with
        | e :: r' =>
            let k := fun u t => option_map (fun p => (u :: fst p, snd p)) (string_body t) in
            if e =? 34 then k 34 r'
            else if e =? 92 then k 92 r'
            else if e =? 47 then k 47 r'
            else if e =? 98 then k 8 r'
            else if e =? 102 then k 12 r'
            else if e =? 110 then k 10 r'
            else if e =? 114 then k 13 r'
            else if e =? 116 then k 9 r'
            else if e =? 117 then
              match r' with
              | h1 :: h2 :: h3 :: h4 :: r'' =>
                  match hex_val h1, hex_val h2, hex_val h3, hex_val h4 with
                  | Some a, Some b, Some c', Some d =>
                      k (a * 4096 + b * 256 + c' * 16 + d) r''
                  | _, _, _, _ => None
                  end
              | _ => None
              end
            else None
        | [] => None
        end
      else if c <? 32 then None
      else option_map (fun p => (c :: fst p, snd p)) (string_body r)
  end.

Fixpoint digits (s : list Z) : list Z * list Z :=
  match s with
  | c :: r => if is_digit c then let (d, t) := digits r in (c :: d, t) else ([], s)
  | [] => ([], [])
  end.

Definition digits_value (d : list Z) : Z :=
  fold_left (fun a c => a * 10 + (c - 48)) d 0.

(** The value [sign * m * 10^e] of a number literal. *)
Definition mk_num (neg : bool) (m e : Z) : Q :=
  let m := if neg then - m else m in
  if 0 <=? e then inject_Z (m * 10 ^ e) else Qmake m (Z.to_pos (10 ^ (- e))).

(** A number literal: [-? (0 | [1-9][0-9]* ) (. [0-9]+)? ([eE] [+-]? [0-9]+)?]. *)
Definition number (s : list Z) : option (Q * list Z) :=
  let (neg, s1) := match s with
                   | 45 :: r => (true, r)
                   | _ => (false, s)
                   end in
  let int_part :=
    match s1 with
    | 48 :: r => Some ([48], r)
    | _ => match digits s1 with
           | ([], _) => None
           | p => Some p
           end
    end in
  match int_part with
  | None => None
  | Some (ip, s2) =>
      let frac :=
        match s2 with
        | 46 :: r => match digits r with
                     | ([], _) => None
                     | p => Some p
                     end
        | _ => Some ([], s2)
        end in
      match frac with
      | None => None
      | Some (fp, s3) =>
          let expo :=
            match s3 with
            | e :: r =>
                if (e =? 101) || (e =? 69) then
                  let (eneg, r') := match r with
                                    | 45 :: t => (true, t)
                                    | 43 :: t => (false, t)
                                    | _ => (false, r)
                                    end in
                  match digits r' with
                  | ([], _) => None
                  | (ed, t) => Some ((if eneg then - digits_value ed
                                      else digits_value ed), t)
                  end
                else Some (0, s3)
            | [] => Some (0, s3)
            end in
          match expo with
          | None => None
          | Some (x, s4) =>
              Some (mk_num neg (digits_value (ip ++ fp))
                      (x - Z.of_nat (List.length fp)), s4)
          end
      end
  end.

Definition prefix (p s : list Z) : option (list Z) :=
  if list_eq_dec Z.eq_dec (firstn (List.length p) s) p
  then Some (skipn (List.length p) s) else None.

(** A value, after leading white space; the fuel bounds the nesting depth
    (every nested value starts after at least one consumed character, so
    [S (length s)] is enough). *)
Fixpoint value (fuel : nat) (s : list Z) {struct fuel} : option (json * list Z) :=
  match fuel with
  | O => None
  | S f =>
    match skip_ws s with
    | [] => None
    | c :: r =>
      if c =? 123 then
        match skip_ws r with
        | 125 :: r' => Some (JObj [], r')
        | _ =>
          (fix members (g : nat) (t : list Z) (acc : list (list Z * json))
             : option (json * list Z) :=
             match g with
             | O => None
             | S g' =>
               match skip_ws t with
               | 34 :: t1 =>
                 match string_body t1 with
                 | Some (k, t2) =>
                   match skip_ws t2 with
                   | 58 :: t3 =>
                     match value f t3 with
                     | Some (v, t4) =>
                       match skip_ws t4 with
                       | 44 :: t5 => members g' t5 (acc ++ [(k, v)])
                       | 125 :: t5 => Some (JObj (acc ++ [(k, v)]), t5)
                       | _ => None
                       end
                     | None => None
                     end
                   | _ => None
                   end
                 | None => None
                 end
               | _ => None
               end
             end) f r []
        end
      else if c =? 91 then
        match skip_ws r with
        | 93 :: r' => Some (JArr [], r')
        | _ =>
          (fix elements (g : nat) (t : list Z) (acc : list json)
             : option (json * list Z) :=
             match g with
             | O => None
             | S g' =>
               match value f t with
               | Some (v, t1) =>
                 match skip_ws t1 with
                 | 44 :: t2 => elements g' t2 (acc ++ [v])
                 | 93 :: t2 => Some (JArr (acc ++ [v]), t2)
                 | _ => None
                 end
               | None => None
               end
             end) f r []
        end
      else if c =? 34 then
        option_map (fun p => (JStr (fst p), snd p)) (string_body r)
      else if c =? 116 then option_map (fun t => (JBool true, t)) (prefix (js "rue") r)
      else if c =? 102 then option_map (fun t => (JBool false, t)) (prefix (js "alse") r)
      else if c =? 110 then option_map (fun t => (JNull, t)) (prefix (js "ull") r)
      else option_map (fun p => (JNum (fst p), snd p)) (number (c :: r))
    end
  end.

(** [JSON.parse(text)]; [None] is the [SyntaxError] it throws. *)
Definition parse (text : list Z) : option json :=
  match value (S (List.length text)) text with
  | Some (v, rest) => match skip_ws rest with [] => Some v | _ => None end
  | None => None
  end.

(** Property read [o.k] on a parsed value: the last binding of [k] in an
    object ([JSON.parse] overwrites earlier duplicates); [None] is
    [undefined] (no other JSON value has the properties read here). *)
Definition get (k : list Z) (v : json) : option json :=
  match v with
  | JObj fs =>
      match find (fun p => if list_eq_dec Z.eq_dec (fst p) k then true else false) (rev fs) with
      | Some (_, x) => Some x
      | None => None
      end
  | _ => None
  end.

(** JavaScript truthiness of a parsed value. *)
Definition truthy (v : json) : bool :=
  match v with
  | JNull => false
  | JBool b => b
  | JNum q => negb (Qeq_bool q 0)
  | JStr s => negb (match s with [] => true | _ => false end)
  | JArr _ | JObj _ => true
  end.

End Json.
Import Json.

(** ** Numbers from [parseInt] *)

Inductive jsnum := JFin (z : Z) | JInf.

(** The smallest integer that rounds to [+Infinity] as a double,
    [2^1024 - 2^970]. *)
Definition double_overflow : Z := 2 ^ 1024 - 2 ^ 970.

(** The integer nearest to [n / d] ([d > 0]), ties to even. *)
Definition round_half_even (n d : Z) : Z :=
  let q := n / d in
  let r := n mod d in
  if 2 * r <? d then q
  else if d <? 2 * r then q + 1
  else if Z.even q then q else q + 1.

(** The double nearest to the integer [z] (overflow apart): at or above
    [2^53] in absolute value, doubles are spaced [2^e] apart with
    [e = log2 |z| - 52]. *)
Definition round53 (z : Z) : Z :=
  if Z.abs z <? 2 ^ 53 then z
  else let e := Z.log2 (Z.abs z) - 52 in
       Z.sgn z * (round_half_even (Z.abs z) (2 ^ e) * 2 ^ e).

(** The number value of a non-negative integer: the nearest double, or
    [Infinity] past the largest one. [parseInt(d, 36)] is this value of
    the digits' value (the specification lets an engine approximate it
    above [2^53]; the correctly rounded value is taken here). *)
Definition to_number (z : Z) : jsnum :=
  if double_overflow <=? z then JInf else JFin (round53 z).

(** [n * 1000] on numbers. *)
Definition times1000 (n : jsnum) : jsnum :=
  match n with JFin x => to_number (x * 1000) | JInf => JInf end.

(** [2^e * b <= x], for an integer [e] of either sign. *)
Definition pow2_scale_le (e x b : Z) : bool :=
  if 0 <=? e then b * 2 ^ e <=? x else b <=? x * 2 ^ (- e).

(** The binary exponent of [x / b] for [x, b > 0]: [floor(log2(x / b))]. *)
Definition exponent_of (x b : Z) : Z :=
  let e0 := Z.log2 x - Z.log2 b in
  if pow2_scale_le e0 x b then e0 else e0 - 1.

(** [Math.floor(c / 1000)] for a number [c] that is an integer: the
    quotient is rounded to the nearest double (53-bit significand, ties
    to even; [c / 1000] is never subnormal and never overflows), then
    rounded down. *)
Definition floor_div1000 (c : Z) : Z :=
  let x := Z.abs c in
  let s := 52 - exponent_of x 1000 in
  let m := if 0 <=? s then round_half_even (x * 2 ^ s) 1000
           else round_half_even x (1000 * 2 ^ (- s)) in
  let v := Z.sgn c * m in
  if 0 <=? s then v / 2 ^ s else v * 2 ^ (- s).

(** [ToInt32]. *)
Definition to_int32 (z : Z) : Z :=
  let m := z mod 2 ^ 32 in if 2 ^ 31 <=? m then m - 2 ^ 32 else m.

Definition jsnum_to_int32 (n : jsnum) : Z :=
  match n with JFin z => to_int32 z | JInf => 0 end.

(** ** Base 36 *)

(** Value of a base-36 digit, either case. *)
Definition digit36 (c : Z) : option Z :=
  if (48 <=? c) && (c <=? 57) then Some (c - 48)
  else if (97 <=? c) && (c <=? 122) then Some (c - 87)
  else if (65 <=? c) && (c <=? 90) then Some (c - 55)
  else None.

Definition is_digit36 (c : Z) : bool :=
  match digit36 c with Some _ => true | None => false end.

(** [parseInt(d, 36)] on a non-empty string of base-36 digits (the only
    strings the decoder passes to it). *)
Definition parse36 (d : list Z) : Z :=
  fold_left (fun a c => a * 36 + match digit36 c with Some v => v | None => 0 end) d 0.

Definition parseInt36 (d : list Z) : jsnum := to_number (parse36 d).

Definition digit_char (v : Z) : Z := if v <? 10 then 48 + v else 87 + v.

(** Little-endian base-36 digits of [n >= 0]. *)
Fixpoint digits36_le (fuel : nat) (n : Z) : list Z :=
  match fuel with
  | O => []
  | S f => if n <? 36 then [n] else n mod 36 :: digits36_le f (n / 36)
  end.

(** [Number.prototype.toString(36)] on an integer. (At or above [2^53]
    the digits an engine prints are implementation-defined; the exact
    digits are taken here.) *)
Definition to_string36 (n : Z) : list Z :=
  let d := fun k => map digit_char (rev (digits36_le (S (Z.to_nat (Z.log2 k))) k)) in
  if n <? 0 then 45 :: d (- n) else d n.

(** ** Items and the pool *)

Definition DEFAULT_THEMES : list (list Z) :=
  map js ["Basketball"; "Baseball"; "Swimming"; "Golf"; "Gym"; "Badminton";
          "Cycling"; "Soccer"; "Fencing"]%string.

Definition N : Z := Z.of_nat (List.length DEFAULT_THEMES).

Record item := { item_id : list Z; item_label : list Z }.

(** [DEFAULT_THEMES.map((label, index) => ((mask >> index) & 1) ? {...} : null)
     .filter(Boolean)] *)
Definition items_of_mask (mask : jsnum) : list item :=
  let m := jsnum_to_int32 mask in
  flat_map (fun p => if Z.testbit m (fst p)
                     then [{| item_id := string_of_index (fst p); item_label := snd p |}]
                     else [])
    (combine (map Z.of_nat (seq 0 (List.length DEFAULT_THEMES))) DEFAULT_THEMES).

(** ** [decodeState] *)

(** The value returned by [decodeState]: a parsed legacy JSON document,
    or the object [{ mask, items, meta: { createdAt } }] of the compact
    branch ([createdAt] is [undefined] when the token has no time). *)
Inductive decoded :=
| DLegacy (v : json)
| DCompact (mask : jsnum) (items : list item) (createdAt : option jsnum).

(** [s.match(/^m([0-9a-z]+)(?:\.t([0-9a-z]+))?$/i)]: the two groups.
    A digit group is followed by [.] or the end, and [.] is no digit, so
    the greedy match needs no backtracking. *)
Fixpoint span36 (s : list Z) : list Z * list Z :=
  match s with
  | c :: r => if is_digit36 c then let (d, t) := span36 r in (c :: d, t) else ([], s)
  | [] => ([], [])
  end.

Definition compact_match (s : list Z) : option (list Z * option (list Z)) :=
  match s with
  | c :: r =>
      if (c =? 109) || (c =? 77) then
        match span36 r with
        | ([], _) => None
        | (d1, []) => Some (d1, None)
        | (d1, 46 :: t :: r2) =>
            if (t =? 116) || (t =? 84) then
              match span36 r2 with
              | ([], _) => None
              | (d2, []) => Some (d1, Some d2)
              | _ => None
              end
            else None
        | _ => None
        end
      else None
  | [] => None
  end.

(** The compact branch of [decodeState]:
    [mask = parseInt(m[1], 36) || 0],
    [createdAt = m[2] ? parseInt(m[2], 36) * 1000 : undefined]. *)
Definition decode_compact (s : list Z) : option decoded :=
  match compact_match s with
  | Some (d1, d2) =>
      let mask := match parseInt36 d1 with JFin 0 => JFin 0 | n => n end in
      let createdAt := option_map (fun d => times1000 (parseInt36 d)) d2 in
      Some (DCompact mask (items_of_mask mask) createdAt)
  | None => None
  end.

(** The legacy attempt: [base64UrlDecode], then [JSON.parse] when the
    decoded string is non-empty. *)
Definition decode_legacy (s : list Z) : option json :=
  match base64UrlDecode s with
  | Some ((_ :: _) as str) => Json.parse str
  | _ => None
  end.

Definition decodeState (s : list Z) : option decoded :=
  match s with
  | [] => None
  | _ =>
      match decode_legacy s with
      | Some v => Some (DLegacy v)
      | None => decode_compact s
      end
  end.

(** ** [encodeState] on objects with a numeric [mask] *)

(** The objects the draw code passes to [encodeState]: an integer mask
    and, optionally, [meta.createdAt], a number that is an integer
    millisecond count. *)
Record DrawState := { remaining : Z; createdAt : option Z }.

(** [`m${mask.toString(36)}${time ? '.t' + time : ''}`] where
    [time = createdAt ? Math.floor(createdAt / 1000).toString(36) : '']. *)
Definition encodeState (st : DrawState) : list Z :=
  let time := match createdAt st with
              | Some c => if c =? 0 then [] else to_string36 (floor_div1000 c)
              | None => []
              end in
  109 :: to_string36 (remaining st) ++
      match time with [] => [] | _ => 46 :: 116 :: time end.

(** ** [createInitialLink] *)

(** [{ mask: (1 << DEFAULT_THEMES.length) - 1, meta: { createdAt: Date.now() } }] *)
Definition initial_state (now : Z) : DrawState :=
  {| remaining := Z.shiftl 1 N - 1; createdAt := Some now |}.

(** ** [drawOne] *)

(** [String(i)] for [i >= 0]. *)
Fixpoint digits10_le (fuel : nat) (n : Z) : list Z :=
  match fuel with
  | O => []
  | S f => if n <? 10 then [n] else n mod 10 :: digits10_le f (n / 10)
  end.

Definition string_of_Z (n : Z) : list Z :=
  map (fun d => 48 + d) (rev (digits10_le (S (Z.to_nat (Z.log2 n))) n)).

Definition str_eqb (a b : list Z) : bool :=
  if list_eq_dec Z.eq_dec a b then true else false.

(** [x.id === String(i) || x.label === DEFAULT_THEMES[i]]; past the end
    of the pool [DEFAULT_THEMES[i]] is [undefined], equal to a missing
    [label]. *)
Definition item_matches (x : json) (i : Z) : bool :=
  match get (js "id") x with
  | Some (JStr s) => str_eqb s (string_of_Z i)
  | _ => false
  end
  || match nth_error DEFAULT_THEMES (Z.to_nat i), get (js "label") x with
     | Some l, Some (JStr s) => str_eqb s l
     | None, None => true
     | _, _ => false
     end.

(** [items.some(x => item_matches x i)]; [None] is the [TypeError] of
    reading [x.id] on a [null] element. *)
Fixpoint some_matches (xs : list json) (i : Z) : option bool :=
  match xs with
  | [] => Some false
  | JNull :: _ => None
  | x :: r => if item_matches x i then Some true else some_matches r i
  end.

(** [acc | (1 << i)] *)
Definition set_bit32 (acc i : Z) : Z :=
  to_int32 (Z.lor acc (to_int32 (Z.shiftl 1 (i mod 32)))).

(** The [reduce] callback over positions [i, i+1, ...] of the array it
    walks; [xs] is [decoded.items]. *)
Fixpoint reduce_items (xs : list json) (i : Z) (n : nat) (acc : Z) : option Z :=
  match n with
  | O => Some acc
  | S n' =>
      match some_matches xs i with
      | Some true => reduce_items xs (i + 1) n' (set_bit32 acc i)
      | Some false => reduce_items xs (i + 1) n' acc
      | None => None
      end
  end.

(** [(decoded.items || DEFAULT_THEMES.map((_, i) => ({ id: i })))
       .reduce((acc, it, i) => (decoded.items?.some(...)) ? (acc | (1 << i)) : acc, 0)];
    [None] is a [TypeError]. *)
Definition legacy_mask (v : json) : option Z :=
  match get (js "items") v with
  | Some it =>
      if truthy it then
        match it with
        | JArr xs => reduce_items xs 0 (List.length xs) 0
        | _ => None (* [reduce] is not a function *)
        end
      else match it with
           | JNull => Some 0
           | _ => None (* [decoded.items?.some] is not a function *)
           end
  | None => Some 0
  end.

Definition Qtrunc (q : Q) : Z := Z.quot (Qnum q) (Zpos (Qden q)).

(** The 32-bit mask [drawOne] works with: [decoded.mask] when it is a
    number (through the [ToInt32] of [>>] and [&]), the legacy
    reconstruction otherwise. *)
Definition state_mask (d : decoded) : option Z :=
  match d with
  | DCompact m _ _ => Some (jsnum_to_int32 m)
  | DLegacy v =>
      match get (js "mask") v with
      | Some (JNum q) => Some (to_int32 (Qtrunc q))
      | _ => legacy_mask v
      end
  end.

Definition decoded_truthy (d : decoded) : bool :=
  match d with DLegacy v => truthy v | DCompact _ _ _ => true end.

(** [newState.meta]: [decoded.meta] as it is, or a fresh
    [{ createdAt: Date.now() }] when it is [null] or [undefined]. *)
Inductive meta := MetaOf (createdAt : option jsnum) | MetaJson (v : json).

Definition next_meta (d : decoded) (now : Z) : meta :=
  match d with
  | DCompact _ _ c => MetaOf c
  | DLegacy v =>
      match get (js "meta") v with
      | Some JNull | None => MetaOf (Some (JFin now))
      | Some m => MetaJson m
      end
  end.

Inductive draw_result :=
| NoState                                     (* [!decoded]: nothing to draw from *)
| Exhausted                                   (* [available.length === 0] *)
| Picked (idx : Z) (next_mask : Z) (next : meta)
| Throws.                                     (* a [TypeError] in the mask reconstruction *)

Definition available (mask : Z) : list Z :=
  filter (fun i => Z.testbit mask i) (map Z.of_nat (seq 0 (List.length DEFAULT_THEMES))).

(** [Math.floor(r * available.length)] for [r = Math.random()]. *)
Definition pick_position (r : Q) (k : nat) : nat :=
  Z.to_nat (Qfloor (r * inject_Z (Z.of_nat k))).

Definition drawOne (d : option decoded) (r : Q) (now : Z) : draw_result :=
  match d with
  | None => NoState
  | Some dd =>
      if negb (decoded_truthy dd) then NoState else
      match state_mask dd with
      | None => Throws
      | Some mask =>
          match available mask with
          | [] => Exhausted
          | av =>
              let idx := nth (pick_position r (List.length av)) av 0 in
              Picked idx (Z.land mask (Z.lnot (Z.shiftl 1 idx))) (next_meta dd now)
          end
      end
  end.

(** ** Successive draws through links *)

(** The link [drawOne] pushes after a pick from a state whose [meta] is
    [{ createdAt }] with [createdAt] a number or [undefined]:
    [encodeState({ mask: newMask, meta })]. [Math.floor(Infinity / 1000)
    .toString(36)] is ["Infinity"]. *)
Definition next_token (nm : Z) (c : option jsnum) : list Z :=
  match c with
  | Some (JFin t) => encodeState {| remaining := nm; createdAt := Some t |}
  | Some JInf => 109 :: to_string36 nm ++ 46 :: 116 :: js "Infinity"
  | None => encodeState {| remaining := nm; createdAt := None |}
  end.

(** One press of "Draw" on the page opened at [?state=tok]: the index
    picked and the token of the link it pushes. [None] when [drawOne]
    picks nothing, and when the kept [meta] is an object of a legacy
    JSON state, whose encoding is left out here. *)
Definition draw_link (tok : list Z) (r : Q) (now : Z) : option (Z * list Z) :=
  match drawOne (decodeState tok) r now with
  | Picked idx nm (MetaOf c) => Some (idx, next_token nm c)
  | _ => None
  end.

(** Successive draws, each on the page of the link the previous one
    pushed, with the [Math.random()] and [Date.now()] of each press:
    the indices picked and the last link. *)
Fixpoint play (tok : list Z) (draws : list (Q * Z)) : list Z * list Z :=
  match draws with
  | [] => ([], tok)
  | (r, now) :: rest =>
      match draw_link tok r now with
      | Some (idx, tok') => let (ps, last) := play tok' rest in (idx :: ps, last)
      | None => ([], tok)
      end
  end.

(** The element the compact branch of [decodeState] lists for theme [i]:
    [{ id: String(i), label: DEFAULT_THEMES[i] }]. *)
Definition item_at (i : Z) : item :=
  {| item_id := string_of_index i; item_label := nth (Z.to_nat i) DEFAULT_THEMES [] |}.

(** The times a chain of compact links can carry. *)
Definition time_ok (c : option jsnum) : Prop :=
  c <> Some JInf /\ forall t, c = Some (JFin t) -> 0 <= t < 2 ^ 53 /\ t mod 1000 = 0.

(** ** [base64UrlEncode] *)

(** Characters [encodeURIComponent] leaves as they are: letters, digits
    and [- _ . ! ~ * ' ( )]. *)
Definition uri_unreserved (c : Z) : bool :=
  ((65 <=? c) && (c <=? 90)) || ((97 <=? c) && (c <=? 122)) || ((48 <=? c) && (c <=? 57))
  || existsb (Z.eqb c) [45; 95; 46; 33; 126; 42; 39; 40; 41].

Definition is_high_surrogate (c : Z) : bool := (55296 <=? c) && (c <=? 56319).
Definition is_low_surrogate (c : Z) : bool := (56320 <=? c) && (c <=? 57343).

(** The UTF-8 octets of a code point. *)
Definition utf8_octets (cp : Z) : list Z :=
  if cp <? 128 then [cp]
  else if cp <? 2048 then [192 + cp / 64; 128 + cp mod 64]
  else if cp <? 65536 then [224 + cp / 4096; 128 + (cp / 64) mod 64; 128 + cp mod 64]
  else [240 + cp / 262144; 128 + (cp / 4096) mod 64; 128 + (cp / 64) mod 64;
        128 + cp mod 64].

Definition hex_upper (v : Z) : Z := if v <? 10 then 48 + v else 55 + v.

(** The escape [%XY] of an octet, with upper-case hex digits. *)
Definition percent_escape (b : Z) : list Z := [37; hex_upper (b / 16); hex_upper (b mod 16)].

(** [encodeURIComponent(s)]; [None] is the [URIError] it throws on a
    lone surrogate. *)
Fixpoint encodeURIComponent (s : list Z) : option (list Z) :=
  match s with
  | [] => Some []
  | c :: r =>
      if uri_unreserved c then option_map (cons c) (encodeURIComponent r)
      else if is_low_surrogate c then None
      else if is_high_surrogate c then
        match r with
        | d :: r' =>
            if is_low_surrogate d then
              let cp := (c - 55296) * 1024 + (d - 56320) + 65536 in
              option_map (app (flat_map percent_escape (utf8_octets cp)))
                (encodeURIComponent r')
            else None
        | [] => None
        end
      else option_map (app (flat_map percent_escape (utf8_octets c))) (encodeURIComponent r)
  end.

Definition hex_upper_value (c : Z) : option Z :=
  if (48 <=? c) && (c <=? 57) then Some (c - 48)
  else if (65 <=? c) && (c <=? 70) then Some (c - 55)
  else None.

(** [.replace(/%([0-9A-F]{2})/g, (_, p1) => String.fromCharCode('0x' + p1))] *)
Fixpoint unescape_upper (s : list Z) : list Z :=
  match s with
  | [] => []
  | c :: t =>
      if c =? 37 then
        match t with
        | h1 :: h2 :: r =>
            match hex_upper_value h1, hex_upper_value h2 with
            | Some a, Some b => (a * 16 + b) :: unescape_upper r
            | _, _ => c :: unescape_upper t
            end
        | _ => c :: unescape_upper t
        end
      else c :: unescape_upper t
  end.

(** The character of a sextet in the standard base64 alphabet. *)
Definition b64_char (v : Z) : Z :=
  if v <? 26 then 65 + v else if v <? 52 then 71 + v else if v <? 62 then v - 4
  else if v =? 62 then 43 else 47.

Fixpoint btoa_groups (l : list Z) : list Z :=
  match l with
  | a :: b :: c :: r =>
      let n := a * 65536 + b * 256 + c in
      b64_char (n / 262144) :: b64_char ((n / 4096) mod 64) :: b64_char ((n / 64) mod 64)
        :: b64_char (n mod 64) :: btoa_groups r
  | [a; b] =>
      let n := a * 65536 + b * 256 in
      [b64_char (n / 262144); b64_char ((n / 4096) mod 64); b64_char ((n / 64) mod 64); 61]
  | [a] =>
      let n := a * 65536 in
      [b64_char (n / 262144); b64_char ((n / 4096) mod 64); 61; 61]
  | [] => []
  end.

(** [btoa(s)]; [None] is the [InvalidCharacterError] it throws on a
    character above [U+00FF]. *)
Definition btoa (s : list Z) : option (list Z) :=
  if forallb (fun c => c <=? 255) s then Some (btoa_groups s) else None.

Fixpoint drop_eq (l : list Z) : list Z :=
  match l with
  | c :: r => if c =? 61 then drop_eq r else l
  | [] => []
  end.

(** [.replace(/=+$/, '')] *)
Definition strip_trailing_eq (s : list Z) : list Z := rev (drop_eq (rev s)).

(** [base64UrlEncode(str)]; an exception in the [try] gives [''] *)
Definition base64UrlEncode (str : list Z) : list Z :=
  match encodeURIComponent str with
  | Some e =>
      match btoa (unescape_upper e) with
      | Some b64 =>
          strip_trailing_eq
            (map (fun c => if c =? 47 then 95 else c)
               (map (fun c => if c =? 43 then 45 else c) b64))
      | None => []
      end
  | None => []
  end.

(** A string of UTF-16 code units. *)
Definition is_code_units (s : list Z) : bool := forallb (fun c => (0 <=? c) && (c <=? 65535)) s.

(** No lone surrogate ([String.prototype.isWellFormed]). *)
Fixpoint is_well_formed (s : list Z) : bool :=
  match s with
  | [] => true
  | c :: r =>
      if is_low_surrogate c then false
      else if is_high_surrogate c then
        match r with
        | d :: r' => is_low_surrogate d && is_well_formed r'
        | [] => false
        end
      else is_well_formed r
  end.

(** Characters of the URL-safe base64 alphabet. *)
Definition is_b64url_char (c : Z) : bool :=
  ((65 <=? c) && (c <=? 90)) || ((97 <=? c) && (c <=? 122)) || ((48 <=? c) && (c <=? 57))
  || (c =? 45) || (c =? 95).

(* ---------- lemmas ---------- *)

Fixpoint enc_sextets (l : list Z) : list Z :=
  match l with
  | a :: b :: c :: r =>
      let n := a * 65536 + b * 256 + c in
      n / 262144 :: (n / 4096) mod 64 :: (n / 64) mod 64 :: n mod 64 :: enc_sextets r
  | [a; b] =>
      let n := a * 65536 + b * 256 in [n / 262144; (n / 4096) mod 64; (n / 64) mod 64]
  | [a] => let n := a * 65536 in [n / 262144; (n / 4096) mod 64]
  | [] => []
  end.

Definition pad_len (l : list Z) : nat :=
  match Nat.modulo (List.length l) 3 with 1 => 2 | 2 => 1 | _ => 0 end%nat.

Definition bytes_ok (l : list Z) : Prop := Forall (fun b => 0 <= b <= 255) l.

Definition url_of (c : Z) : Z :=
  (fun c => if c =? 47 then 95 else c) ((fun c => if c =? 43 then 45 else c) c).

Definition b64_char_ok (v : Z) : bool :=
  match B64.b64_index (b64_char v) with Some w => w =? v | None => false end
  && (url_to_std (url_of (b64_char v)) =? b64_char v)
  && is_b64url_char (url_of (b64_char v))
  && negb (url_of (b64_char v) =? 61)
  && negb (B64.is_ascii_ws (b64_char v))
  && negb (b64_char v =? 61).

(** ** Derived notions used in the statements *)

(** The time part of a compact token. *)
Definition time_part (c : option Z) : list Z :=
  match c with
  | Some t => if t =? 0 then [] else 46 :: 116 :: to_string36 (floor_div1000 t)
  | None => []
  end.

(** Lower-case base-36 digits, the characters [toString(36)] emits for a
    non-negative integer. *)
Definition is_lower36 (c : Z) : bool := ((48 <=? c) && (c <=? 57)) || ((97 <=? c) && (c <=? 122)).

(** Characters the claims count as URL-safe: lower-case base-36 digits
    (among them [m] and [t]) and [.]. *)
Definition url_safe (c : Z) : bool := is_lower36 c || (c =? 46).

(** Number of set bits of a 32-bit value. *)
Definition popcount32 (z : Z) : nat :=
  List.length (filter (Z.testbit z) (map Z.of_nat (seq 0 32))).

(** ** Base 36 *)

(** Value of a little-endian list of base-36 digits. *)
Definition value_le (l : list Z) : Z := fold_right (fun d a => d + 36 * a) 0 l.

(** The first byte [atob] produces for the mask part [m<digits>] of a
    compact token lies in [0x98 .. 0x9B] ([m] is sextet 38). *)
Definition first_byte_check (m : Z) : bool :=
  match B64.atob (pad4 (map url_to_std (109 :: to_string36 m))) with
  | Some (b :: _) => (152 <=? b) && (b <=? 155)
  | _ => false
  end.

(** Case analysis on the integer comparisons of a goal. *)
Ltac zcases :=
  repeat match goal with
         | |- context [?a <=? ?b] => destruct (Z.leb_spec a b)
         | |- context [?a <? ?b] => destruct (Z.ltb_spec a b)
         | |- context [?a =? ?b] => destruct (Z.eqb_spec a b)
         end;
  cbn [andb orb negb]; cbv beta iota.

Ltac forall_cons :=
  repeat match goal with
         | H : Forall _ (_ :: _) |- _ => apply Forall_cons_iff in H as [? ?]
         end.

(** [zcases], simplifying and discarding contradictory branches after
    each case split. *)
Ltac zprune :=
  repeat (match goal with
          | |- context [?a <=? ?b] => destruct (Z.leb_spec a b)
          | |- context [?a <? ?b] => destruct (Z.ltb_spec a b)
          | |- context [?a =? ?b] => destruct (Z.eqb_spec a b)
          end; try (exfalso; lia); cbn [andb orb negb]; cbv beta iota).

(** ** Numbers as doubles *)

Section Doubles.

Lemma round_half_even_bound (n d : Z) :
  0 < d -> 2 * n - d <= 2 * d * round_half_even n d <= 2 * n + d.
Proof.
  intros Hd. unfold round_half_even.
  pose proof (Z.div_mod n d ltac:(lia)). pose proof (Z.mod_pos_bound n d Hd).
  set (q := n / d) in *. set (r := n mod d) in *.
  destruct (Z.ltb_spec (2 * r) d); [nia|].
  destruct (Z.ltb_spec d (2 * r)); [nia|].
  destruct (Z.even q); nia.
Qed.

Lemma round_half_even_nonneg (n d : Z) : 0 <= n -> 0 < d -> 0 <= round_half_even n d.
Proof.
  intros Hn Hd. pose proof (round_half_even_bound n d Hd). nia.
Qed.

Lemma div_between (a p q : Z) : 0 < p -> q * p <= a < (q + 1) * p -> a / p = q.
Proof.
  intros Hp Ha. symmetry. apply Z.div_unique_pos with (a - q * p); lia.
Qed.

Lemma round53_small (z : Z) : Z.abs z < 2 ^ 53 -> round53 z = z.
Proof. intros Hz. unfold round53. destruct (Z.ltb_spec (Z.abs z) (2 ^ 53)); lia. Qed.

Lemma round53_nonneg (z : Z) : 0 <= z -> 0 <= round53 z.
Proof.
  intros Hz. unfold round53. destruct (Z.ltb_spec (Z.abs z) (2 ^ 53)); [lia|].
  rewrite Z.abs_eq, Z.sgn_pos by lia.
  assert (53 <= Z.log2 z).
  { rewrite <- (Z.log2_pow2 53) by lia. apply Z.log2_le_mono. lia. }
  assert (0 < 2 ^ (Z.log2 z - 52)) by (apply Z.pow_pos_nonneg; lia).
  pose proof (round_half_even_nonneg z (2 ^ (Z.log2 z - 52)) Hz ltac:(lia)). nia.
Qed.

Lemma round53_large (z : Z) : 2 ^ 53 <= z -> 2 ^ 53 <= round53 z.
Proof.
  intros Hz. unfold round53. destruct (Z.ltb_spec (Z.abs z) (2 ^ 53)); [lia|].
  rewrite Z.abs_eq, Z.sgn_pos by lia. rewrite Z.mul_1_l.
  assert (Hl : 53 <= Z.log2 z).
  { rewrite <- (Z.log2_pow2 53) by lia. apply Z.log2_le_mono. exact Hz. }
  set (e := Z.log2 z - 52).
  assert (He : 2 ^ Z.log2 z = 2 ^ 52 * 2 ^ e)
    by (rewrite <- Z.pow_add_r by lia; f_equal; unfold e; lia).
  pose proof (Z.log2_spec z ltac:(lia)) as [Hlo _].
  assert (Hp : 2 <= 2 ^ e).
  { replace 2 with (2 ^ 1) at 1 by reflexivity. apply Z.pow_le_mono_r; unfold e; lia. }
  set (p := 2 ^ e) in *.
  pose proof (round_half_even_bound z p ltac:(lia)) as Hb.
  set (r := round_half_even z p) in *.
  assert (Hr : 2 ^ 52 <= r) by nia.
  assert (2 ^ 53 = 2 ^ 52 * 2) by reflexivity. nia.
Qed.

Lemma to_number_small (z : Z) : 0 <= z < 2 ^ 53 -> to_number z = JFin z.
Proof.
  intros Hz. unfold to_number.
  assert (2 ^ 53 < double_overflow) by (vm_compute; reflexivity).
  destruct (Z.leb_spec double_overflow z); [lia|].
  rewrite round53_small by lia. reflexivity.
Qed.

Lemma floor_div1000_exact (c : Z) : - 2 ^ 53 < c < 2 ^ 53 -> floor_div1000 c = c / 1000.
Proof.
  intros Hc. destruct (Z.eq_dec c 0) as [->|Hc0]; [reflexivity|].
  unfold floor_div1000.
  set (x := Z.abs c).
  assert (Hx : 0 < x < 2 ^ 53) by (unfold x; lia).
  assert (Hl : Z.log2 x <= 52).
  { apply Z.lt_succ_r. apply Z.log2_lt_pow2; [lia|]. exact (proj2 Hx). }
  assert (He : exponent_of x 1000 <= 43).
  { unfold exponent_of. change (Z.log2 1000) with 9.
    destruct (pow2_scale_le (Z.log2 x - 9) x 1000); lia. }
  set (s := 52 - exponent_of x 1000) in *.
  assert (Hs : 9 <= s) by (unfold s; lia).
  destruct (Z.leb_spec 0 s) as [_|]; [|lia].
  assert (Hp : 512 <= 2 ^ s).
  { replace 512 with (2 ^ 9) by reflexivity. apply Z.pow_le_mono_r; lia. }
  set (p := 2 ^ s) in *.
  pose proof (round_half_even_bound (x * p) 1000 ltac:(lia)) as Hb.
  set (m := round_half_even (x * p) 1000) in *.
  pose proof (Z.div_mod c 1000 ltac:(lia)) as Hdm.
  pose proof (Z.mod_pos_bound c 1000 ltac:(lia)) as Hr.
  set (q := c / 1000) in *. set (r := c mod 1000) in *.
  apply div_between; [lia|].
  destruct (Z.lt_ge_cases 0 c) as [Hpos|Hneg].
  - rewrite Z.sgn_pos by lia. unfold x in Hb. rewrite Z.abs_eq in Hb by lia.
    assert (0 <= r * p <= 999 * p) by nia.
    assert (c * p = 1000 * (q * p) + r * p) by (rewrite Hdm; ring).
    nia.
  - rewrite Z.sgn_neg by lia. unfold x in Hb. rewrite Z.abs_neq in Hb by lia.
    assert (0 <= r * p <= 999 * p) by nia.
    assert (- c * p = - (1000 * (q * p) + r * p)) by (rewrite Hdm; ring).
    nia.
Qed.

Lemma floor_div1000_nonneg (c : Z) : 0 <= c -> 0 <= floor_div1000 c.
Proof.
  intros Hc. unfold floor_div1000. rewrite Z.abs_eq by exact Hc.
  set (s := 52 - exponent_of c 1000).
  assert (Hsg : 0 <= Z.sgn c) by (destruct c; simpl; lia).
  destruct (Z.leb_spec 0 s).
  - assert (0 < 2 ^ s) by (apply Z.pow_pos_nonneg; lia).
    pose proof (round_half_even_nonneg (c * 2 ^ s) 1000 ltac:(nia) ltac:(lia)).
    apply Z.div_pos; nia.
  - assert (0 < 2 ^ (- s)) by (apply Z.pow_pos_nonneg; lia).
    pose proof (round_half_even_nonneg c (1000 * 2 ^ (- s)) Hc ltac:(lia)). nia.
Qed.

Lemma floor_div1000_neg (c : Z) : c < 0 -> floor_div1000 c < 0.
Proof.
  intros Hc. unfold floor_div1000.
  set (x := Z.abs c). assert (Hx : 0 < x) by (unfold x; lia).
  rewrite Z.sgn_neg by exact Hc.
  pose proof (Z.log2_spec x Hx) as [Hlo _]. pose proof (Z.log2_nonneg x).
  set (L := Z.log2 x) in *.
  assert (He : exponent_of x 1000 <= L - 9).
  { unfold exponent_of. change (Z.log2 1000) with 9. fold L.
    destruct (pow2_scale_le (L - 9) x 1000); lia. }
  set (s := 52 - exponent_of x 1000) in *.
  destruct (Z.leb_spec 0 s) as [Hs|Hs].
  - assert (Hp : 2 ^ 61 <= x * 2 ^ s).
    { transitivity (2 ^ (L + s)); [apply Z.pow_le_mono_r; lia|].
      rewrite Z.pow_add_r by lia. apply Z.mul_le_mono_nonneg_r; [|exact Hlo].
      apply Z.pow_nonneg; lia. }
    assert (0 < 2 ^ s) by (apply Z.pow_pos_nonneg; lia).
    pose proof (round_half_even_bound (x * 2 ^ s) 1000 ltac:(lia)) as Hb.
    apply Z.div_lt_upper_bound; [lia|].
    assert (0 < round_half_even (x * 2 ^ s) 1000) by lia. lia.
  - assert (Hp : 2 ^ 61 * 2 ^ (- s) <= x).
    { rewrite <- Z.pow_add_r by lia. transitivity (2 ^ L); [|exact Hlo].
      apply Z.pow_le_mono_r; lia. }
    assert (0 < 2 ^ (- s)) by (apply Z.pow_pos_nonneg; lia).
    pose proof (round_half_even_bound x (1000 * 2 ^ (- s)) ltac:(lia)) as Hb.
    assert (0 < round_half_even x (1000 * 2 ^ (- s))) by nia. nia.
Qed.

Lemma digit36_nonneg (c v : Z) : digit36 c = Some v -> 0 <= v.
Proof.
  unfold digit36. intros H.
  destruct ((48 <=? c) && (c <=? 57)) eqn:E1.
  { injection H as <-. apply andb_true_iff in E1 as [E1 _]. apply Z.leb_le in E1. lia. }
  destruct ((97 <=? c) && (c <=? 122)) eqn:E2.
  { injection H as <-. apply andb_true_iff in E2 as [E2 _]. apply Z.leb_le in E2. lia. }
  destruct ((65 <=? c) && (c <=? 90)) eqn:E3; [|discriminate].
  injection H as <-. apply andb_true_iff in E3 as [E3 _]. apply Z.leb_le in E3. lia.
Qed.

Lemma parse36_nonneg (l : list Z) : 0 <= parse36 l.
Proof.
  unfold parse36.
  assert (G : forall a, 0 <= a ->
            0 <= fold_left (fun a c => a * 36 + match digit36 c with Some v => v | None => 0 end) l a).
  { induction l as [|x l IH]; intros a Ha; [exact Ha|]. cbn [fold_left]. apply IH.
    destruct (digit36 x) eqn:E; [apply digit36_nonneg in E|]; lia. }
  apply G. lia.
Qed.

End Doubles.

Section Base36.

Lemma digit36_digit_char (d : Z) : 0 <= d < 36 -> digit36 (digit_char d) = Some d.
Proof.
  intros Hd. unfold digit36, digit_char. destruct (Z.ltb_spec d 10); zcases; try (f_equal; lia); lia.
Qed.

Lemma digits36_le_range (f : nat) (n : Z) :
  0 <= n -> Forall (fun d => 0 <= d < 36) (digits36_le f n).
Proof.
  revert n; induction f as [|f IH]; intros n Hn; simpl; [constructor|].
  destruct (Z.ltb_spec n 36); constructor; try lia.
  - constructor.
  - apply Z.mod_pos_bound; lia.
  - apply IH. apply Z.div_pos; lia.
Qed.

Lemma value_le_cons (x : Z) (l : list Z) : value_le (x :: l) = x + 36 * value_le l.
Proof. reflexivity. Qed.

Lemma digits36_le_value (f : nat) (n : Z) :
  0 <= n < 2 ^ Z.of_nat f -> value_le (digits36_le f n) = n.
Proof.
  revert n; induction f as [|f IH]; intros n Hn.
  - simpl in Hn. simpl. lia.
  - cbn [digits36_le]. destruct (Z.ltb_spec n 36); rewrite value_le_cons; [simpl; lia|].
    rewrite Nat2Z.inj_succ, Z.pow_succ_r in Hn by lia.
    rewrite IH.
    + pose proof (Z.div_mod n 36 ltac:(lia)). lia.
    + split; [apply Z.div_pos; lia|].
      apply Z.div_lt_upper_bound; lia.
Qed.

Lemma parse36_digits (l : list Z) (a : Z) :
  Forall (fun d => 0 <= d < 36) l ->
  fold_left (fun a c => a * 36 + match digit36 c with Some v => v | None => 0 end)
    (map digit_char (rev l)) a = a * 36 ^ Z.of_nat (List.length l) + value_le l.
Proof.
  revert a; induction l as [|x l IH]; intros a Hl; [simpl; lia|].
  inversion Hl; subst. cbn [rev].
  rewrite map_app, fold_left_app, IH by assumption. cbn [map fold_left].
  rewrite digit36_digit_char by assumption.
  change (List.length (x :: l)) with (S (List.length l)).
  rewrite Nat2Z.inj_succ, Z.pow_succ_r, value_le_cons by lia. ring.
Qed.

Lemma to_string36_nonneg (n : Z) :
  0 <= n -> to_string36 n = map digit_char (rev (digits36_le (S (Z.to_nat (Z.log2 n))) n)).
Proof.
  intros Hn. unfold to_string36. destruct (Z.ltb_spec n 0); [lia|reflexivity].
Qed.

Lemma parse36_to_string36 (n : Z) : 0 <= n -> parse36 (to_string36 n) = n.
Proof.
  intros Hn. rewrite to_string36_nonneg by assumption. unfold parse36.
  rewrite parse36_digits by (apply digits36_le_range; assumption).
  rewrite digits36_le_value; [lia|].
  split; [assumption|].
  rewrite Nat2Z.inj_succ, Z2Nat.id by apply Z.log2_nonneg.
  destruct (Z.eq_dec n 0) as [->|Hn0]; [simpl; lia|].
  apply Z.log2_spec; lia.
Qed.

Lemma to_string36_not_nil (n : Z) : to_string36 n <> [].
Proof.
  unfold to_string36.
  destruct (n <? 0); [discriminate|].
  simpl digits36_le. destruct (n <? 36); simpl; [discriminate|].
  rewrite map_app. intros H. apply app_eq_nil in H. destruct H as [_ H]. discriminate.
Qed.

Lemma to_string36_lower (n : Z) : 0 <= n -> forallb is_lower36 (to_string36 n) = true.
Proof.
  intros Hn. rewrite to_string36_nonneg by assumption.
  apply forallb_forall. intros c Hc.
  apply in_map_iff in Hc. destruct Hc as [d [<- Hd]].
  apply in_rev in Hd.
  pose proof (digits36_le_range (S (Z.to_nat (Z.log2 n))) n Hn) as Hr.
  rewrite Forall_forall in Hr. specialize (Hr d Hd).
  unfold is_lower36, digit_char. destruct (Z.ltb_spec d 10); zcases; reflexivity || lia.
Qed.

End Base36.

(** ** The compact grammar on encoder output *)

Section Grammar.

Lemma is_digit36_lower (c : Z) : is_lower36 c = true -> is_digit36 c = true.
Proof.
  unfold is_lower36, is_digit36, digit36. zcases; try reflexivity; discriminate.
Qed.

Lemma span36_digits (d r : list Z) :
  forallb is_digit36 d = true ->
  (match r with [] => True | c :: _ => is_digit36 c = false end) ->
  span36 (d ++ r) = (d, r).
Proof.
  intros Hd Hr. induction d as [|c d IH]; simpl.
  - destruct r as [|c r]; [reflexivity|]. simpl. rewrite Hr. reflexivity.
  - simpl in Hd. apply andb_true_iff in Hd as [Hc Hd].
    rewrite Hc, IH by assumption. reflexivity.
Qed.

Lemma forallb_lower_digit36 (l : list Z) :
  forallb is_lower36 l = true -> forallb is_digit36 l = true.
Proof.
  rewrite !forallb_forall. intros H c Hc. apply is_digit36_lower, H, Hc.
Qed.

Lemma encodeState_eq (st : DrawState) :
  encodeState st = 109 :: to_string36 (remaining st) ++ time_part (createdAt st).
Proof.
  unfold encodeState, time_part. destruct (createdAt st) as [t|]; [|reflexivity].
  destruct (t =? 0); [reflexivity|].
  destruct (to_string36 (floor_div1000 t)) eqn:E; [now apply to_string36_not_nil in E|].
  reflexivity.
Qed.

Lemma compact_match_encoded (m : Z) (c : option Z) :
  0 <= m -> (forall t, c = Some t -> 0 <= t) ->
  compact_match (encodeState {| remaining := m; createdAt := c |})
  = Some (to_string36 m,
          match c with
          | Some t => if t =? 0 then None else Some (to_string36 (floor_div1000 t))
          | None => None
          end).
Proof.
  intros Hm Hc. rewrite encodeState_eq. cbn [remaining createdAt compact_match].
  cbn [Z.eqb Pos.eqb orb].
  pose proof (forallb_lower_digit36 _ (to_string36_lower m Hm)) as Hd.
  unfold time_part. destruct c as [t|].
  - specialize (Hc t eq_refl). destruct (t =? 0).
    + rewrite app_nil_r, <- (app_nil_r (to_string36 m)), span36_digits by easy.
      rewrite app_nil_r. destruct (to_string36 m) eqn:E; [now apply to_string36_not_nil in E|].
      reflexivity.
    + rewrite span36_digits by easy.
      destruct (to_string36 m) eqn:E; [now apply to_string36_not_nil in E|].
      cbn [Z.eqb Pos.eqb orb].
      rewrite <- (app_nil_r (to_string36 (floor_div1000 t))), span36_digits.
      * rewrite app_nil_r. destruct (to_string36 (floor_div1000 t)) eqn:E2;
          [now apply to_string36_not_nil in E2|]. reflexivity.
      * apply forallb_lower_digit36, to_string36_lower. apply floor_div1000_nonneg; lia.
      * exact I.
  - rewrite app_nil_r, <- (app_nil_r (to_string36 m)), span36_digits by easy.
    rewrite app_nil_r. destruct (to_string36 m) eqn:E; [now apply to_string36_not_nil in E|].
    reflexivity.
Qed.

End Grammar.

(** ** The legacy attempt fails on encoder output *)

Section LegacyRejects.

Lemma in_strip_padding (c : Z) (d : list Z) :
  c <> 61 -> In c d -> In c (B64.strip_padding d).
Proof.
  intros Hc Hin. unfold B64.strip_padding.
  destruct (Z.of_nat (List.length d) mod 4 =? 0); [|assumption].
  pose proof Hin as Hr. apply in_rev in Hr.
  destruct (rev d) as [|a [|b r]]; [assumption| |].
  - destruct (Z.eqb_spec a 61); [|assumption]. simpl in *. lia.
  - destruct (Z.eqb_spec a 61), (Z.eqb_spec b 61); cbn [andb]; try assumption;
      simpl in Hr; rewrite <- in_rev; simpl;
      destruct Hr as [Hr|[Hr|Hr]]; solve [auto | lia].
Qed.

Lemma indices_in_none (c : Z) (d : list Z) :
  B64.b64_index c = None -> In c d -> B64.indices d = None.
Proof.
  intros Hc Hin. induction d as [|x d IH]; [destruct Hin|].
  simpl. destruct Hin as [->|Hin].
  - rewrite Hc. reflexivity.
  - rewrite (IH Hin). destruct (B64.b64_index x); reflexivity.
Qed.

(** A [.] anywhere in the input makes [atob] throw. *)
Lemma atob_rejects_dot (s : list Z) :
  In 46 s -> B64.atob (pad4 (map url_to_std s)) = None.
Proof.
  intros Hin. unfold B64.atob.
  destruct (_ mod 4 =? 1); [reflexivity|].
  rewrite (indices_in_none 46); [reflexivity|reflexivity|].
  apply in_strip_padding; [lia|].
  apply filter_In. split; [|reflexivity].
  unfold pad4. apply in_or_app. left.
  change 46 with (url_to_std 46). apply in_map, Hin.
Qed.

Lemma first_byte_all :
  forallb first_byte_check (map Z.of_nat (seq 0 512)) = true.
Proof. vm_compute. reflexivity. Qed.

Lemma first_byte_in_range (m : Z) :
  0 <= m <= 511 ->
  exists b rest, B64.atob (pad4 (map url_to_std (109 :: to_string36 m))) = Some (b :: rest)
                 /\ 152 <= b <= 155.
Proof.
  intros Hm.
  pose proof first_byte_all as H. rewrite forallb_forall in H.
  specialize (H m). unfold first_byte_check in H.
  destruct (B64.atob _) as [[|b rest]|]; try (exfalso; discriminate H;
    apply in_map_iff; exists (Z.to_nat m); split; [lia|apply in_seq; lia]).
  exists b, rest. split; [reflexivity|].
  assert (Hb : ((152 <=? b) && (b <=? 155)) = true).
  { apply H. apply in_map_iff. exists (Z.to_nat m). split; [lia|apply in_seq; lia]. }
  apply andb_true_iff in Hb as [H1 H2]. apply Z.leb_le in H1, H2. lia.
Qed.

Lemma utf8_rejects_continuation (b : Z) (r : list Z) :
  128 <= b <= 191 -> Utf8.decode (b :: r) = None.
Proof.
  intros Hb. cbn [Utf8.decode]. zcases; try reflexivity; lia.
Qed.

Lemma base64_rejects_encoded (m : Z) (c : option Z) :
  0 <= m <= 511 ->
  base64UrlDecode (encodeState {| remaining := m; createdAt := c |}) = None.
Proof.
  intros Hm. rewrite encodeState_eq. cbn [remaining createdAt].
  unfold base64UrlDecode.
  destruct (time_part c) as [|x ts] eqn:Et.
  - rewrite app_nil_r. destruct (first_byte_in_range m Hm) as (b & rest & -> & Hb).
    apply utf8_rejects_continuation. lia.
  - rewrite atob_rejects_dot; [reflexivity|].
    unfold time_part in Et. destruct c as [t|]; [|discriminate].
    destruct (t =? 0); [discriminate|]. injection Et as <- _.
    right. apply in_or_app. right. left. reflexivity.
Qed.

End LegacyRejects.

(** ** Decoding encoder output *)

Section DecodeEncoded.

Lemma decodeState_cons (x : Z) (l : list Z) :
  decodeState (x :: l)
  = match decode_legacy (x :: l) with
    | Some v => Some (DLegacy v)
    | None => decode_compact (x :: l)
    end.
Proof. reflexivity. Qed.

Lemma decode_encoded (m : Z) (c : option Z) :
  0 <= m <= 511 -> (forall t, c = Some t -> 0 <= t < 2 ^ 53) ->
  decodeState (encodeState {| remaining := m; createdAt := c |})
  = Some (DCompact (JFin m) (items_of_mask (JFin m))
            match c with
            | Some t => if t =? 0 then None else Some (JFin (t / 1000 * 1000))
            | None => None
            end).
Proof.
  intros Hm Hc.
  assert (Hc' : forall t, c = Some t -> 0 <= t) by (intros t Ht; specialize (Hc t Ht); lia).
  pose proof (base64_rejects_encoded m c Hm) as Hb.
  pose proof (compact_match_encoded m c ltac:(lia) Hc') as Hcm.
  pose proof (encodeState_eq {| remaining := m; createdAt := c |}) as Etok.
  unfold decodeState, decode_legacy, decode_compact.
  rewrite Hb, Hcm, Etok.
  unfold parseInt36. rewrite parse36_to_string36, to_number_small by lia.
  assert (Hmask : match JFin m with JFin 0 => JFin 0 | n => n end = JFin m)
    by (destruct m; reflexivity).
  rewrite Hmask. f_equal. f_equal.
  destruct c as [t|]; [|reflexivity].
  specialize (Hc t eq_refl).
  destruct (t =? 0); [reflexivity|]. cbn [option_map].
  rewrite floor_div1000_exact by lia.
  assert (0 <= t / 1000) by (apply Z.div_pos; lia).
  pose proof (Z.mul_div_le t 1000 ltac:(lia)).
  unfold parseInt36. rewrite parse36_to_string36, to_number_small by lia.
  cbn [times1000]. rewrite to_number_small by lia. reflexivity.
Qed.

End DecodeEncoded.

(** ** The draw transition *)

Section Draw.

Lemma available_spec (m i : Z) :
  In i (available m) <-> (0 <= i < N /\ Z.testbit m i = true).
Proof.
  unfold available. rewrite filter_In, in_map_iff.
  split.
  - intros [[k [<- Hk]] Hb]. apply in_seq in Hk. unfold N. split; [lia|assumption].
  - intros [Hi Hb]. split; [|assumption]. exists (Z.to_nat i).
    unfold N in Hi. split; [lia|apply in_seq; lia].
Qed.

Lemma available_NoDup (m : Z) : NoDup (available m).
Proof.
  apply NoDup_filter. simpl. repeat constructor; simpl; lia.
Qed.

Lemma Qfloor_char (x : Q) (j : Z) :
  Qfloor x = j <-> (inject_Z j <= x /\ x < inject_Z (j + 1))%Q.
Proof.
  split.
  - intros <-. split; [apply Qfloor_le|apply Qlt_floor].
  - intros [H1 H2].
    pose proof (Qfloor_resp_le _ _ H1) as A. rewrite Qfloor_Z in A.
    pose proof (Qfloor_le x) as B.
    assert (C : (inject_Z (Qfloor x) < inject_Z (j + 1))%Q) by (eapply Qle_lt_trans; eauto).
    rewrite <- Zlt_Qlt in C. lia.
Qed.

Lemma pick_position_char (r : Q) (k j : nat) :
  (0 <= r)%Q -> pick_position r k = j <->
  (inject_Z (Z.of_nat j) <= r * inject_Z (Z.of_nat k) < inject_Z (Z.of_nat j + 1))%Q.
Proof.
  intros Hr. unfold pick_position.
  assert (H0 : 0 <= Qfloor (r * inject_Z (Z.of_nat k))).
  { change 0%Z with (Qfloor 0). apply Qfloor_resp_le.
    apply Qmult_le_0_compat; [assumption|]. rewrite <- (Qfloor_Z 0).
    change (inject_Z 0 <= inject_Z (Z.of_nat k))%Q. rewrite <- Zle_Qle. lia. }
  rewrite <- Qfloor_char. lia.
Qed.

Lemma pick_position_lt (r : Q) (k : nat) :
  (0 <= r < 1)%Q -> (0 < k)%nat -> (pick_position r k < k)%nat.
Proof.
  intros [Hr0 Hr1] Hk.
  set (x := (r * inject_Z (Z.of_nat k))%Q).
  assert (Hx : (x < inject_Z (Z.of_nat k))%Q).
  { unfold x. rewrite <- (Qmult_1_l (inject_Z (Z.of_nat k))) at 2.
    apply Qmult_lt_r; [|assumption].
    change 0%Q with (inject_Z 0). rewrite <- Zlt_Qlt. lia. }
  assert (Hf : Qfloor x < Z.of_nat k).
  { rewrite Zlt_Qlt. eapply Qle_lt_trans; [apply Qfloor_le|exact Hx]. }
  unfold pick_position. fold x. lia.
Qed.

Lemma drawOne_eq (d : decoded) (m : Z) (r : Q) (now : Z) :
  decoded_truthy d = true -> state_mask d = Some m ->
  drawOne (Some d) r now =
  match available m with
  | [] => Exhausted
  | av => Picked (nth (pick_position r (List.length av)) av 0)
            (Z.land m (Z.lnot (Z.shiftl 1 (nth (pick_position r (List.length av)) av 0))))
            (next_meta d now)
  end.
Proof.
  intros Ht Hm. unfold drawOne. rewrite Ht, Hm. reflexivity.
Qed.

Lemma testbit_clear (m idx i : Z) :
  0 <= idx -> 0 <= i ->
  Z.testbit (Z.land m (Z.lnot (Z.shiftl 1 idx))) i = Z.testbit m i && negb (idx =? i).
Proof.
  intros Hidx Hi.
  rewrite Z.land_spec, Z.lnot_spec, Z.shiftl_1_l, Z.pow2_bits_eqb by lia. reflexivity.
Qed.

Lemma filter_length_le {A} (p q : A -> bool) (l : list A) :
  (forall y, In y l -> p y = true -> q y = true) ->
  (List.length (filter p l) <= List.length (filter q l))%nat.
Proof.
  induction l as [|y l IH]; intros H; simpl; [lia|].
  assert (IH' := IH (fun z Hz => H z (or_intror Hz))).
  destruct (p y) eqn:Ep; [rewrite (H y (or_introl eq_refl) Ep); simpl; lia|].
  destruct (q y); simpl; lia.
Qed.

Lemma filter_length_lt {A} (p q : A -> bool) (l : list A) (x : A) :
  (forall y, In y l -> p y = true -> q y = true) ->
  In x l -> p x = false -> q x = true ->
  (List.length (filter p l) < List.length (filter q l))%nat.
Proof.
  induction l as [|y l IH]; intros H Hin Hp Hq; [destruct Hin|].
  simpl. destruct Hin as [->|Hin].
  - rewrite Hp, Hq. simpl.
    pose proof (filter_length_le p q l (fun z Hz => H z (or_intror Hz))). lia.
  - assert (IH' := IH (fun z Hz => H z (or_intror Hz)) Hin Hp Hq).
    destruct (p y) eqn:Ep; [rewrite (H y (or_introl eq_refl) Ep); simpl; lia|].
    destruct (q y); simpl; lia.
Qed.

Lemma popcount_clear (m idx : Z) :
  0 <= idx < 32 -> Z.testbit m idx = true ->
  (popcount32 (Z.land m (Z.lnot (Z.shiftl 1 idx))) < popcount32 m)%nat.
Proof.
  intros Hidx Hb. unfold popcount32.
  apply (filter_length_lt _ _ _ idx).
  - intros y Hy. apply in_map_iff in Hy. destruct Hy as [k [<- _]].
    rewrite testbit_clear by lia. intros H. apply andb_true_iff in H. apply H.
  - apply in_map_iff. exists (Z.to_nat idx). split; [lia|apply in_seq; lia].
  - rewrite testbit_clear, Z.eqb_refl by lia. apply andb_false_r.
  - exact Hb.
Qed.

Lemma land_range (m x : Z) : 0 <= m <= 511 -> 0 <= Z.land m x <= 511.
Proof.
  intros Hm.
  assert (H9 : Z.land m (Z.ones 9) = m)
    by (rewrite Z.land_ones by lia; apply Z.mod_small; lia).
  rewrite <- H9, <- Z.land_assoc, (Z.land_comm (Z.ones 9) x), Z.land_assoc,
    Z.land_ones by lia.
  pose proof (Z.mod_pos_bound (Z.land m x) (2 ^ 9) ltac:(lia)). lia.
Qed.

Lemma drawOne_picked (d : decoded) (r : Q) (now idx nm : Z) (mt : meta) :
  drawOne (Some d) r now = Picked idx nm mt ->
  exists m, decoded_truthy d = true /\ state_mask d = Some m
            /\ nm = Z.land m (Z.lnot (Z.shiftl 1 idx)) /\ mt = next_meta d now.
Proof.
  unfold drawOne. destruct (decoded_truthy d); [|discriminate]. cbn [negb].
  destruct (state_mask d) as [m|]; [|discriminate].
  destruct (available m); [discriminate|].
  intros H. injection H as <- <- <-. exists m. auto.
Qed.

Lemma Qdiv_le_iff (a b c : Q) : (0 < b -> (a / b <= c <-> a <= c * b))%Q.
Proof.
  intros Hb. split.
  - intros H. apply (Qmult_le_r _ _ b Hb) in H.
    rewrite Qmult_comm, Qmult_div_r in H; [exact H|].
    intros E. rewrite E in Hb. discriminate Hb.
  - apply Qle_shift_div_r. exact Hb.
Qed.

Lemma Qlt_div_iff (a b c : Q) : (0 < b -> (a < c / b <-> a * b < c))%Q.
Proof.
  intros Hb. split.
  - intros H. apply (Qmult_lt_r _ _ b Hb) in H.
    rewrite (Qmult_comm (c / b) b), Qmult_div_r in H; [exact H|].
    intros E. rewrite E in Hb. discriminate Hb.
  - apply Qlt_shift_div_l. exact Hb.
Qed.

End Draw.

(** * Claims *)

(** ** Codec round trip *)

(** C1 (amended). For a state with [remaining] in [0, 2^9 - 1] and
    [createdAt] absent or a non-negative safe integer, decoding the
    encoded token gives back the mask exactly; [createdAt] comes back as
    [floor(createdAt / 1000) * 1000] when it is non-zero, and as absent
    when it is absent or [0] (the encoder's truthiness test drops a zero
    time). *)
Theorem decode_encode_roundtrip (m : Z) (c : option Z) :
  0 <= m <= 511 -> (forall t, c = Some t -> 0 <= t < 2 ^ 53) ->
  decodeState (encodeState {| remaining := m; createdAt := c |})
  = Some (DCompact (JFin m) (items_of_mask (JFin m))
            match c with
            | Some t => if t =? 0 then None else Some (JFin (t / 1000 * 1000))
            | None => None
            end).
Proof. apply decode_encoded. Qed.

Lemma decode_encode_roundtrip_witness :
  decodeState (encodeState {| remaining := 511; createdAt := Some 1700000000123 |})
  = Some (DCompact (JFin 511) (items_of_mask (JFin 511)) (Some (JFin 1700000000000))).
Proof.
  apply (decode_encode_roundtrip 511 (Some 1700000000123)); [lia|].
  intros t Ht. injection Ht as <-. lia.
Defined.

(** C1 (counterexample). A present [createdAt] of [0] does not come back
    as [floor(0 / 1000) * 1000 = 0]: the token carries no time and the
    decoded [createdAt] is absent. *)
Lemma decode_encode_createdAt_zero :
  decodeState (encodeState {| remaining := 5; createdAt := Some 0 |})
  <> Some (DCompact (JFin 5) (items_of_mask (JFin 5)) (Some (JFin (0 / 1000 * 1000)))).
Proof. vm_compute. discriminate. Qed.

(** ** Encoder output *)

(** C9 (amended). For [remaining] in [0, 2^9 - 1] and [createdAt] absent
    or an integer in [0, 2^53), the token is [m], the base-36 digits of the mask
    (lower case, no sign, parsing back to the mask), then [.t] and the
    base-36 digits of [floor(createdAt / 1000)] exactly when [createdAt]
    is present and non-zero; every character is a lower-case base-36
    digit or [.]. *)
Theorem encode_output_form (m : Z) (c : option Z) :
  0 <= m <= 511 -> (forall t, c = Some t -> 0 <= t < 2 ^ 53) ->
  encodeState {| remaining := m; createdAt := c |} = 109 :: to_string36 m ++ time_part c
  /\ to_string36 m <> []
  /\ forallb is_lower36 (to_string36 m) = true
  /\ parse36 (to_string36 m) = m
  /\ (forall t, c = Some t -> t <> 0 ->
        time_part c = 46 :: 116 :: to_string36 (t / 1000)
        /\ forallb is_lower36 (to_string36 (t / 1000)) = true
        /\ parse36 (to_string36 (t / 1000)) = t / 1000)
  /\ (c = None \/ c = Some 0 -> time_part c = [])
  /\ forallb url_safe (encodeState {| remaining := m; createdAt := c |}) = true.
Proof.
  intros Hm Hc.
  assert (Hl : forallb is_lower36 (to_string36 m) = true) by (apply to_string36_lower; lia).
  assert (Ht : forall t, c = Some t -> t <> 0 ->
            time_part c = 46 :: 116 :: to_string36 (t / 1000)
            /\ forallb is_lower36 (to_string36 (t / 1000)) = true
            /\ parse36 (to_string36 (t / 1000)) = t / 1000).
  { intros t -> Ht0. specialize (Hc t eq_refl).
    assert (0 <= t / 1000) by (apply Z.div_pos; lia).
    unfold time_part. rewrite floor_div1000_exact by lia. destruct (Z.eqb_spec t 0); [lia|].
    split; [reflexivity|]. split.
    - apply to_string36_lower. assumption.
    - apply parse36_to_string36. assumption. }
  assert (Hn : c = None \/ c = Some 0 -> time_part c = []) by (intros [-> | ->]; reflexivity).
  split; [apply encodeState_eq|].
  split; [apply to_string36_not_nil|].
  split; [assumption|].
  split; [apply parse36_to_string36; lia|].
  split; [assumption|].
  split; [assumption|].
  rewrite encodeState_eq. cbn [remaining createdAt forallb].
  rewrite forallb_app. apply andb_true_iff. split; [reflexivity|].
  apply andb_true_iff. split.
  - apply forallb_forall. intros x Hx. unfold url_safe.
    rewrite forallb_forall in Hl. rewrite (Hl x Hx). reflexivity.
  - destruct c as [t|]; [|reflexivity].
    destruct (Z.eq_dec t 0) as [->|Ht0]; [rewrite Hn by auto; reflexivity|].
    destruct (Ht t eq_refl Ht0) as [-> [Hl' _]].
    cbn [forallb]. apply andb_true_iff. split; [reflexivity|].
    apply andb_true_iff. split; [reflexivity|].
    apply forallb_forall. intros x Hx. unfold url_safe.
    rewrite forallb_forall in Hl'. rewrite (Hl' x Hx). reflexivity.
Qed.

Lemma encode_output_form_witness :
  encodeState {| remaining := 511; createdAt := Some 1700000000123 |}
  = 109 :: to_string36 511 ++ time_part (Some 1700000000123).
Proof.
  apply (encode_output_form 511 (Some 1700000000123)); [lia|].
  intros t Ht. injection Ht as <-. lia.
Defined.

(** C9 (counterexample). A present [createdAt] of [0] gets no [.t] part:
    the token of [{ remaining: 5, createdAt: 0 }] is [m5]. *)
Lemma encode_createdAt_zero_no_time :
  encodeState {| remaining := 5; createdAt := Some 0 |} = js "m5"
  /\ ~ In 46 (encodeState {| remaining := 5; createdAt := Some 0 |}).
Proof.
  split; [reflexivity|]. vm_compute. intuition discriminate.
Qed.

(** ** Grammar disjointness *)

(** C10. For every mask in [0, 2^9 - 1], with or without a time part,
    [atob] either rejects the token (a time part brings a [.], outside
    the base64 alphabet) or yields a first byte in [0x98 .. 0x9B], a
    UTF-8 continuation byte on which [decodeURIComponent] throws; so the
    legacy attempt fails and [decodeState] takes the compact branch. *)
Theorem compact_token_not_legacy (m : Z) (c : option Z) :
  0 <= m <= 511 ->
  let tok := encodeState {| remaining := m; createdAt := c |} in
  (B64.atob (pad4 (map url_to_std tok)) = None
   \/ exists b rest, B64.atob (pad4 (map url_to_std tok)) = Some (b :: rest)
                     /\ 152 <= b <= 155 /\ Utf8.decode (b :: rest) = None)
  /\ (time_part c <> [] -> B64.atob (pad4 (map url_to_std tok)) = None)
  /\ base64UrlDecode tok = None
  /\ decodeState tok = decode_compact tok.
Proof.
  intros Hm tok.
  assert (Hdot : time_part c <> [] -> B64.atob (pad4 (map url_to_std tok)) = None).
  { intros Hc. apply atob_rejects_dot. unfold tok. rewrite encodeState_eq.
    cbn [remaining createdAt]. right. apply in_or_app. right.
    unfold time_part in *. destruct c as [t|]; [|congruence].
    destruct (t =? 0); [congruence|]. left. reflexivity. }
  assert (Hb : base64UrlDecode tok = None) by apply base64_rejects_encoded, Hm.
  split; [|split; [exact Hdot|split; [exact Hb|]]].
  - destruct (time_part c) as [|x l] eqn:Et; [|left; apply Hdot; discriminate].
    right. unfold tok. rewrite encodeState_eq. cbn [remaining createdAt].
    rewrite Et, app_nil_r.
    destruct (first_byte_in_range m Hm) as (b & rest & E & Hr).
    exists b, rest. split; [exact E|]. split; [exact Hr|].
    apply utf8_rejects_continuation. lia.
  - assert (E : tok = 109 :: (to_string36 m ++ time_part c)) by apply encodeState_eq.
    rewrite E, decodeState_cons, <- E. unfold decode_legacy. rewrite Hb. reflexivity.
Qed.

Lemma compact_token_not_legacy_witness :
  base64UrlDecode (encodeState {| remaining := 511; createdAt := Some 1700000000123 |}) = None.
Proof. apply (compact_token_not_legacy 511 (Some 1700000000123)). lia. Defined.

(** ** The draw transition *)

(** C7. For a decoded state whose 32-bit mask is [m], when [m] has an
    available index among the pool's positions, [drawOne] picks such an
    index [idx] (bit [idx] of [m] is set) and returns
    [m & ~(1 << idx)], which has strictly fewer set bits than [m] and no
    bit that [m] lacks; when [m = 0] it returns [Exhausted], never a
    picked item. *)
Theorem draw_clears_one_bit (d : decoded) (m : Z) (r : Q) (now : Z) :
  decoded_truthy d = true -> state_mask d = Some m -> (0 <= r < 1)%Q ->
  (m = 0 -> drawOne (Some d) r now = Exhausted)
  /\ (available m <> [] ->
      exists idx,
        drawOne (Some d) r now
        = Picked idx (Z.land m (Z.lnot (Z.shiftl 1 idx))) (next_meta d now)
        /\ Z.testbit m idx = true /\ 0 <= idx < N
        /\ (popcount32 (Z.land m (Z.lnot (Z.shiftl 1 idx))) < popcount32 m)%nat
        /\ Z.land (Z.land m (Z.lnot (Z.shiftl 1 idx))) m
           = Z.land m (Z.lnot (Z.shiftl 1 idx))).
Proof.
  intros Ht Hm Hr. rewrite (drawOne_eq d m r now Ht Hm). split.
  - intros ->. reflexivity.
  - intros Hne. destruct (available m) as [|a av] eqn:Ea; [congruence|].
    set (idx := nth (pick_position r (List.length (a :: av))) (a :: av) 0).
    assert (Hin : In idx (available m)).
    { rewrite Ea. apply nth_In. apply pick_position_lt; [exact Hr|simpl; lia]. }
    apply available_spec in Hin. destruct Hin as [Hrange Hbit].
    exists idx. split; [reflexivity|]. split; [exact Hbit|]. split; [exact Hrange|].
    split.
    + apply popcount_clear; [unfold N in Hrange; simpl in Hrange; lia|exact Hbit].
    + rewrite (Z.land_comm _ m), Z.land_assoc, Z.land_diag. reflexivity.
Qed.

Lemma draw_clears_one_bit_witness :
  drawOne (Some (DCompact (JFin 0) (items_of_mask (JFin 0)) None)) 0 0 = Exhausted.
Proof.
  apply (proj1 (draw_clears_one_bit (DCompact (JFin 0) (items_of_mask (JFin 0)) None) 0 0 0
                  eq_refl eq_refl (conj (Qle_refl 0) eq_refl))).
  reflexivity.
Defined.

(** C8. With [r = Math.random()] in [[0, 1)] and [k] available indices,
    [drawOne] picks the [j]-th available index exactly when [r] lies in
    [[j/k, (j+1)/k)], an interval of length [1/k] for every position [j];
    so under a uniform [r] every available index has probability [1/k].
    With the single available index 0 ([remaining = 0b000000001]) the
    pick is index 0 and the new mask is 0 for every [r]. *)
Theorem draw_uniform_over_available (d : decoded) (m : Z) (r : Q) (now : Z) (j : nat) :
  decoded_truthy d = true -> state_mask d = Some m -> (0 <= r < 1)%Q ->
  (j < List.length (available m))%nat ->
  ((exists nm mt, drawOne (Some d) r now = Picked (nth j (available m) 0) nm mt)
   <-> (inject_Z (Z.of_nat j) / inject_Z (Z.of_nat (List.length (available m))) <= r
        /\ r < inject_Z (Z.of_nat j + 1) / inject_Z (Z.of_nat (List.length (available m))))%Q)
  /\ drawOne (Some (DCompact (JFin 1) (items_of_mask (JFin 1)) None)) r now
     = Picked 0 0 (MetaOf None).
Proof.
  intros Ht Hm Hr Hj. split.
  - rewrite (drawOne_eq d m r now Ht Hm).
    pose proof (available_NoDup m) as Hnd.
    destruct (available m) as [|a av] eqn:Ea; [simpl in Hj; lia|].
    set (k := List.length (a :: av)) in *.
    assert (Hk : (0 < inject_Z (Z.of_nat k))%Q).
    { change 0%Q with (inject_Z 0). rewrite <- Zlt_Qlt. unfold k. simpl. lia. }
    rewrite Qdiv_le_iff, Qlt_div_iff by exact Hk.
    rewrite <- pick_position_char by apply Hr.
    split.
    + intros (nm & mt & H). injection H as Hidx _ _.
      rewrite (NoDup_nth (a :: av) 0) in Hnd.
      apply Hnd; [apply pick_position_lt; [exact Hr|unfold k; simpl; lia]|exact Hj|exact Hidx].
    + intros Hp. unfold k in *. simpl List.length in *. rewrite Hp. eexists. eexists. reflexivity.
  - rewrite (drawOne_eq (DCompact (JFin 1) (items_of_mask (JFin 1)) None) 1 r now eq_refl eq_refl).
    change (available 1) with [0]. cbv zeta. cbn [List.length].
    assert (Hp : (pick_position r 1 < 1)%nat) by (apply pick_position_lt; [exact Hr|lia]).
    destruct (pick_position r 1) as [|p]; [reflexivity|lia].
Qed.

Lemma draw_uniform_over_available_witness :
  drawOne (Some (DCompact (JFin 1) (items_of_mask (JFin 1)) None)) (1 # 3) 0
  = Picked 0 0 (MetaOf None).
Proof.
  apply (proj2 (draw_uniform_over_available (DCompact (JFin 511) (items_of_mask (JFin 511)) None)
                  511 (1 # 3) 0 0 eq_refl eq_refl
                  (conj (Qlt_le_weak 0 (1 # 3) eq_refl) eq_refl) ltac:(vm_compute; lia))).
Defined.

(** ** Range of the mask *)

(** C3 (amended). The initial seed is [2^9 - 1]; a draw from a state
    whose 32-bit mask is in [0, 2^9 - 1] yields a mask in that range;
    decoding the token of an in-range state whose [createdAt] is absent
    or non-negative gives back the same in-range mask; and the token of
    an in-range state with a negative [createdAt] carries a [-] in its
    time part, which the compact pattern refuses, so it decodes to
    [null]. Decoding an arbitrary token does not range-check the mask
    (see the counterexample). *)
Theorem mask_range_preserved (now : Z) :
  remaining (initial_state now) = 2 ^ 9 - 1
  /\ (forall d m r idx nm mt,
        state_mask d = Some m -> 0 <= m <= 511 ->
        drawOne (Some d) r now = Picked idx nm mt -> 0 <= nm <= 511)
  /\ (forall m c,
        0 <= m <= 511 -> (forall t, c = Some t -> 0 <= t) ->
        exists it ct, decodeState (encodeState {| remaining := m; createdAt := c |})
                      = Some (DCompact (JFin m) it ct))
  /\ (forall m t,
        0 <= m <= 511 -> t < 0 ->
        decodeState (encodeState {| remaining := m; createdAt := Some t |}) = None).
Proof.
  split; [reflexivity|]. split; [|split].
  - intros d m r idx nm mt Hm Hr Hd.
    destruct (drawOne_picked _ _ _ _ _ _ Hd) as (m' & _ & Hm' & -> & _).
    rewrite Hm in Hm'. injection Hm' as <-. apply land_range, Hr.
  - intros m c Hm Hc.
    pose proof (base64_rejects_encoded m c Hm) as Hb.
    pose proof (compact_match_encoded m c ltac:(lia) Hc) as Hcm.
    pose proof (encodeState_eq {| remaining := m; createdAt := c |}) as Etok.
    unfold decodeState, decode_legacy, decode_compact.
    rewrite Hb, Hcm, Etok.
    unfold parseInt36. rewrite parse36_to_string36, to_number_small by lia.
    assert (Hmask : match JFin m with JFin 0 => JFin 0 | n => n end = JFin m)
      by (destruct m; reflexivity).
    rewrite Hmask. eauto.
  - intros m t Hm Ht.
    pose proof (base64_rejects_encoded m (Some t) Hm) as Hb.
    rewrite encodeState_eq in *. cbn [remaining createdAt] in *.
    rewrite decodeState_cons. unfold decode_legacy. rewrite Hb.
    unfold decode_compact, time_part.
    destruct (Z.eqb_spec t 0) as [|_]; [lia|].
    unfold to_string36 at 2.
    destruct (Z.ltb_spec (floor_div1000 t) 0) as [_|Hf];
      [|pose proof (floor_div1000_neg t Ht); lia].
    cbn [compact_match Z.eqb Pos.eqb orb].
    rewrite span36_digits; [| |reflexivity].
    + destruct (to_string36 m) eqn:E; [now apply to_string36_not_nil in E|].
      reflexivity.
    + apply forallb_lower_digit36, to_string36_lower. lia.
Qed.

Lemma mask_range_preserved_witness :
  0 <= Z.land 511 (Z.lnot (Z.shiftl 1 0)) <= 511
  /\ decodeState (encodeState {| remaining := 5; createdAt := Some (-1500) |}) = None.
Proof.
  split.
  - exact (proj1 (proj2 (mask_range_preserved 0))
             (DCompact (JFin 511) (items_of_mask (JFin 511)) None) 511 0%Q 0
             (Z.land 511 (Z.lnot (Z.shiftl 1 0))) (MetaOf None)
             eq_refl ltac:(lia) ltac:(vm_compute; reflexivity)).
  - exact (proj2 (proj2 (proj2 (mask_range_preserved 0))) 5 (-1500) ltac:(lia) ltac:(lia)).
Defined.

(** C3 (counterexample). [decodeState("mzz")] has mask [1295]
    ([0b10100001111], bit 10 set), outside [0, 2^9 - 1]. *)
Lemma decode_mask_out_of_range :
  decodeState (js "mzz") = Some (DCompact (JFin 1295) (items_of_mask (JFin 1295)) None)
  /\ 511 < 1295.
Proof. split; [vm_compute; reflexivity|lia]. Qed.

(** ** Frame of the draw on [createdAt] *)

(** C5 (amended). The state returned by a draw carries the decoded
    [meta] over unchanged when the decoded value has one: always for a
    compact token (its [createdAt], present or not), and for a legacy
    payload whose [meta] is present and not [null]. Only when a legacy
    payload has no [meta] (or [meta: null]) does the draw stamp
    [createdAt = Date.now()]. *)
Theorem draw_meta_frame (d : decoded) (r : Q) (now idx nm : Z) (mt : meta) :
  drawOne (Some d) r now = Picked idx nm mt ->
  (forall msk it c, d = DCompact msk it c -> mt = MetaOf c)
  /\ (forall v x, d = DLegacy v -> get (js "meta") v = Some x -> x <> JNull -> mt = MetaJson x)
  /\ (forall v, d = DLegacy v ->
        get (js "meta") v = None \/ get (js "meta") v = Some JNull ->
        mt = MetaOf (Some (JFin now))).
Proof.
  intros H. destruct (drawOne_picked _ _ _ _ _ _ H) as (m & _ & _ & _ & ->).
  split; [|split].
  - intros msk it c ->. reflexivity.
  - intros v x -> Hx Hn. unfold next_meta. rewrite Hx.
    destruct x; try reflexivity. congruence.
  - intros v -> [Hx|Hx]; unfold next_meta; rewrite Hx; reflexivity.
Qed.

Lemma draw_meta_frame_witness :
  drawOne (Some (DCompact (JFin 1) (items_of_mask (JFin 1)) (Some (JFin 5000)))) 0 42
    = Picked 0 0 (MetaOf (Some (JFin 5000)))
  /\ MetaOf (Some (JFin 5000)) = MetaOf (Some (JFin 5000)).
Proof.
  split; [vm_compute; reflexivity|].
  exact (proj1 (draw_meta_frame (DCompact (JFin 1) (items_of_mask (JFin 1)) (Some (JFin 5000)))
                  0 42 0 0 (MetaOf (Some (JFin 5000))) ltac:(vm_compute; reflexivity))
           (JFin 1) (items_of_mask (JFin 1)) (Some (JFin 5000)) eq_refl).
Defined.

(** C5 (counterexample). The legacy token of
    [{"items":[{"id":"0","label":"Basketball"}]}] has no [meta]; drawing
    from it (with [Math.random() = 0] and [Date.now() = 42]) returns a
    state whose [createdAt] is the fresh stamp [42]. *)
Definition legacy_no_meta_token : list Z :=
  js "eyJpdGVtcyI6W3siaWQiOiIwIiwibGFiZWwiOiJCYXNrZXRiYWxsIn1dfQ".

Lemma draw_stamps_new_createdAt :
  (exists v, decodeState legacy_no_meta_token = Some (DLegacy v) /\ get (js "meta") v = None)
  /\ drawOne (decodeState legacy_no_meta_token) 0 42 = Picked 0 0 (MetaOf (Some (JFin 42))).
Proof.
  split; [|vm_compute; reflexivity].
  eexists. split; [vm_compute; reflexivity|]. vm_compute. reflexivity.
Qed.

(** ** Legacy payloads *)

(** The legacy token of the payload
    [{"items":[{"id":"2","label":"Swimming"},{"id":"5","label":"Badminton"}],
      "meta":{"createdAt":1700000000000}}]. *)
Definition legacy_two_items_token : list Z :=
  js ("eyJpdGVtcyI6W3siaWQiOiIyIiwibGFiZWwiOiJTd2ltbWluZyJ9LHsiaWQiOiI1IiwibGFiZWwiOiJCYWRtaW50b24ifV0sIm1ldGEiOnsiY3JlYXRlZEF0IjoxNzAwMDAwMDAwMDAwfX0").

(** C2 (code bug). The legacy payload whose items are pool entries 2
    and 5 should be reconstructed as the mask [(1 << 2) | (1 << 5) = 36];
    [drawOne] reconstructs it as [0], because the reduction sets bit [i]
    for the [i]-th element of [items] only when that element is pool
    entry [i] (its index in [items], not in the pool), and here neither
    is. The draw then reports that every item has been drawn. *)
Lemma legacy_items_mask_lost :
  match decodeState legacy_two_items_token with
  | Some (DLegacy v) => get (js "items") v
  | _ => None
  end =
    Some (JArr [JObj [(js "id", JStr (js "2")); (js "label", JStr (nth 2 DEFAULT_THEMES []))];
                JObj [(js "id", JStr (js "5")); (js "label", JStr (nth 5 DEFAULT_THEMES []))]])
  /\ option_map state_mask (decodeState legacy_two_items_token) = Some (Some 0)
  /\ Z.lor (Z.shiftl 1 2) (Z.shiftl 1 5) = 36
  /\ drawOne (decodeState legacy_two_items_token) (1 # 2) 0 = Exhausted.
Proof. vm_compute. repeat split; reflexivity. Qed.

(** ** Parsing the compact mask *)




(** ** Order of the decoding paths *)

(** C6. [decodeState] tries the legacy Base64URL JSON form first, then
    the compact form, and returns [null] when neither applies; the
    legacy path fails exactly when the Base64URL decoding fails, yields
    an empty string, or yields text that is not JSON. For example
    ["not-a-valid-token!!"] decodes to [null], and ["ME7"] (which
    decodes from Base64 to the non-JSON text ["0N"]) is read as the
    compact mask [511]. *)
Theorem decode_paths_order (s : list Z) :
  (s <> [] -> forall v, decode_legacy s = Some v -> decodeState s = Some (DLegacy v))
  /\ (s <> [] -> decode_legacy s = None -> decodeState s = decode_compact s)
  /\ (decode_legacy s = None -> compact_match s = None -> decodeState s = None)
  /\ (decode_legacy s = None <->
        base64UrlDecode s = None \/ base64UrlDecode s = Some []
        \/ exists str, base64UrlDecode s = Some str /\ str <> [] /\ Json.parse str = None)
  /\ decodeState (js "not-a-valid-token!!") = None
  /\ base64UrlDecode (js "ME7") = Some (js "0N")
  /\ decodeState (js "ME7") = Some (DCompact (JFin 511) (items_of_mask (JFin 511)) None).
Proof.
  split; [|split; [|split; [|split; [|split; [|split]]]]].
  - intros Hs v Hv. destruct s; [congruence|]. unfold decodeState. rewrite Hv. reflexivity.
  - intros Hs Hv. destruct s; [congruence|]. unfold decodeState. rewrite Hv. reflexivity.
  - intros Hv Hc. destruct s as [|x l]; [reflexivity|].
    unfold decodeState. rewrite Hv. unfold decode_compact. rewrite Hc. reflexivity.
  - unfold decode_legacy. destruct (base64UrlDecode s) as [[|a str]|].
    + split; [intros _; right; left; reflexivity|reflexivity].
    + split.
      * intros Hp. right. right. exists (a :: str). split; [reflexivity|]. split; [discriminate|exact Hp].
      * intros [H|[H|(str' & H & _ & Hp)]]; try discriminate.
        injection H as <-. exact Hp.
    + split; [intros _; left; reflexivity|reflexivity].
  - vm_compute. reflexivity.
  - vm_compute. reflexivity.
  - vm_compute. reflexivity.
Qed.

Lemma decode_paths_order_witness :
  decodeState (js "ME7") = Some (DCompact (JFin 511) (items_of_mask (JFin 511)) None).
Proof.
  exact (proj2 (proj2 (proj2 (proj2 (proj2 (proj2 (decode_paths_order (js "ME7")))))))).
Defined.


(** * Further properties *)

Section Base64Encode.

Lemma btoa_groups_split : forall l,
  btoa_groups l = map b64_char (enc_sextets l) ++ repeat 61 (pad_len l).
Proof.
  fix IH 1. intros [|a [|b [|c r]]]; try reflexivity.
  cbn [btoa_groups enc_sextets map app]. rewrite IH.
  f_equal; f_equal; f_equal; f_equal. f_equal.
  unfold pad_len. cbn [List.length].
  replace (S (S (S (List.length r)))) with (List.length r + 1 * 3)%nat by lia.
  rewrite Nat.Div0.mod_add. reflexivity.
Qed.

Lemma enc_sextets_length : forall l, exists q,
  (List.length (enc_sextets l) + pad_len l = 4 * q)%nat /\ (pad_len l <= 2)%nat
  /\ (l <> [] -> enc_sextets l <> []).
Proof.
  fix IH 1. intros [|a [|b [|c r]]].
  - exists 0%nat. simpl. repeat split; auto.
  - exists 1%nat. simpl. repeat split; auto; discriminate.
  - exists 1%nat. simpl. repeat split; auto; discriminate.
  - destruct (IH r) as (q & Hl1 & Hl2 & _). exists (S q).
    assert (Hp : pad_len (a :: b :: c :: r) = pad_len r).
    { unfold pad_len. cbn [List.length].
      replace (S (S (S (List.length r)))) with (List.length r + 1 * 3)%nat by lia.
      rewrite Nat.Div0.mod_add. reflexivity. }
    rewrite Hp. cbn [enc_sextets List.length]. repeat split; [lia|lia|discriminate].
Qed.

Lemma enc_sextets_range : forall l, bytes_ok l -> Forall (fun v => 0 <= v < 64) (enc_sextets l).
Proof.
  fix IH 1. intros [|a [|b [|c r]]] H; unfold bytes_ok in H.
  - constructor.
  - forall_cons. cbn. repeat constructor; Z.to_euclidean_division_equations; lia.
  - forall_cons. cbn.
    repeat constructor; Z.to_euclidean_division_equations; lia.
  - forall_cons.
    cbn [enc_sextets]. repeat constructor; try (Z.to_euclidean_division_equations; lia).
    apply IH. assumption.
Qed.

Lemma sextets_to_bytes_enc : forall l, bytes_ok l -> B64.sextets_to_bytes (enc_sextets l) = l.
Proof.
  fix IH 1. intros [|a [|b [|c r]]] H; unfold bytes_ok in H.
  - reflexivity.
  - forall_cons. cbn [enc_sextets B64.sextets_to_bytes].
    f_equal. Z.to_euclidean_division_equations; lia.
  - forall_cons. cbn [enc_sextets B64.sextets_to_bytes].
    f_equal; [|f_equal]; Z.to_euclidean_division_equations; lia.
  - forall_cons.
    cbn [enc_sextets B64.sextets_to_bytes]. rewrite IH by assumption.
    f_equal; [|f_equal; [|f_equal]]; Z.to_euclidean_division_equations; lia.
Qed.

End Base64Encode.

Section Base64Url.

Lemma b64_char_facts (v : Z) : 0 <= v < 64 -> b64_char_ok v = true.
Proof.
  intros Hv.
  assert (Hall : forallb b64_char_ok (map Z.of_nat (seq 0 64)) = true) by reflexivity.
  rewrite forallb_forall in Hall. apply Hall.
  replace v with (Z.of_nat (Z.to_nat v)) by lia. apply in_map, in_seq. lia.
Qed.

Lemma drop_eq_repeat (p : nat) (l : list Z) : drop_eq (repeat 61 p ++ l) = drop_eq l.
Proof. induction p; [reflexivity|]. cbn [repeat app drop_eq]. exact IHp. Qed.

Lemma strip_trailing_eq_pad (x : list Z) (p : nat) :
  Forall (fun c => c <> 61) x -> strip_trailing_eq (x ++ repeat 61 p) = x.
Proof.
  intros Hx. unfold strip_trailing_eq.
  rewrite rev_app_distr, rev_repeat, drop_eq_repeat.
  destruct (rev x) as [|c r] eqn:E.
  - cbn. apply (f_equal (@rev Z)) in E. rewrite rev_involutive in E. symmetry. exact E.
  - assert (Hc : c <> 61).
    { rewrite Forall_forall in Hx. apply Hx. rewrite in_rev, E. left. reflexivity. }
    cbn [drop_eq]. destruct (Z.eqb_spec c 61); [contradiction|].
    rewrite <- E, rev_involutive. reflexivity.
Qed.

Lemma indices_map (sx : list Z) :
  Forall (fun v => 0 <= v < 64) sx -> B64.indices (map b64_char sx) = Some sx.
Proof.
  induction 1 as [|v sx Hv _ IH]; [reflexivity|].
  cbn [map B64.indices]. rewrite IH.
  pose proof (b64_char_facts v Hv) as F. unfold b64_char_ok in F.
  destruct (B64.b64_index (b64_char v)) as [w|]; [|discriminate].
  apply andb_true_iff in F as [F _]. repeat (apply andb_true_iff in F as [F _]).
  apply Z.eqb_eq in F. subst. reflexivity.
Qed.

Lemma strip_padding_pad (y : list Z) (p : nat) :
  Forall (fun c => c <> 61) y -> (p <= 2)%nat ->
  (Z.of_nat (List.length (y ++ repeat 61 p)) mod 4 = 0) ->
  B64.strip_padding (y ++ repeat 61 p) = y.
Proof.
  intros Hy Hp Hl. unfold B64.strip_padding. rewrite Hl. cbn [Z.eqb].
  change (0 =? 0) with true. cbv iota.
  rewrite rev_app_distr, rev_repeat.
  assert (Hr : forall c, In c (rev y) -> c <> 61)
    by (intros c Hc; rewrite <- in_rev in Hc; rewrite Forall_forall in Hy; auto).
  destruct p as [|[|[|p]]]; [| | |lia]; cbn [repeat app].
  - destruct (rev y) as [|a [|b r]] eqn:E.
    + rewrite app_nil_r. reflexivity.
    + destruct (Z.eqb_spec a 61); [exfalso; apply (Hr a); [left|]; auto|].
      rewrite app_nil_r. reflexivity.
    + destruct (Z.eqb_spec a 61); [exfalso; apply (Hr a); [left|]; auto|].
      cbn [andb]. rewrite app_nil_r. reflexivity.
  - destruct (rev y) as [|b r] eqn:E.
    + cbn. apply (f_equal (@rev Z)) in E. rewrite rev_involutive in E. symmetry. exact E.
    + destruct (Z.eqb_spec b 61); [exfalso; apply (Hr b); [left|]; auto|].
      cbn [Z.eqb andb]. change (61 =? 61) with true. cbv iota.
      rewrite <- E, rev_involutive. reflexivity.
  - change (61 =? 61) with true. cbn [andb]. rewrite rev_involutive. reflexivity.
Qed.

(** The URL-safe form of [btoa] output decodes back with [base64UrlDecode]'s
    [atob] step. *)
Lemma b64url_roundtrip (l : list Z) :
  bytes_ok l -> l <> [] ->
  let u := strip_trailing_eq (map (fun c => if c =? 47 then 95 else c)
                                (map (fun c => if c =? 43 then 45 else c) (btoa_groups l))) in
  u <> [] /\ forallb is_b64url_char u = true /\ base64UrlDecode u = Utf8.decode l.
Proof.
  intros Hl Hne u.
  pose proof (enc_sextets_range l Hl) as Hsx.
  destruct (enc_sextets_length l) as (q & Hq & Hp & Hsne).
  specialize (Hsne Hne).
  assert (F : forall v, In v (enc_sextets l) -> b64_char_ok v = true).
  { intros v Hv. rewrite Forall_forall in Hsx. apply b64_char_facts, Hsx, Hv. }
  assert (Hu : u = map (fun v => url_of (b64_char v)) (enc_sextets l)).
  { unfold u. rewrite btoa_groups_split, !map_app, !map_repeat, !map_map.
    cbn [Z.eqb Pos.eqb]. apply strip_trailing_eq_pad.
    apply Forall_forall. intros c Hc. apply in_map_iff in Hc as (v & <- & Hv).
    specialize (F v Hv). unfold b64_char_ok in F.
    repeat (apply andb_true_iff in F as [F ?]).
    match goal with H : negb (url_of _ =? 61) = true |- _ => revert H end.
    intros Hn Heq. rewrite Heq in Hn. discriminate. }
  rewrite Hu. split; [|split].
  - destruct (enc_sextets l); [contradiction|discriminate].
  - apply forallb_forall. intros c Hc. apply in_map_iff in Hc as (v & <- & Hv).
    specialize (F v Hv). unfold b64_char_ok in F.
    repeat (apply andb_true_iff in F as [F ?]). assumption.
  - unfold base64UrlDecode.
    destruct (map (fun v => url_of (b64_char v)) (enc_sextets l)) as [|x0 xs] eqn:E.
    { apply map_eq_nil in E. contradiction. }
    rewrite <- E, map_map.
    rewrite (map_ext_in _ b64_char (enc_sextets l)).
    2:{ intros v Hv. specialize (F v Hv). unfold b64_char_ok in F.
        repeat (apply andb_true_iff in F as [F ?]). apply Z.eqb_eq.
        match goal with H : (url_to_std _ =? _) = true |- _ => exact H end. }
    assert (Hpad : pad4 (map b64_char (enc_sextets l))
                   = map b64_char (enc_sextets l) ++ repeat 61 (pad_len l)).
    { unfold pad4. f_equal. f_equal. rewrite length_map.
      set (x := List.length (enc_sextets l)) in *. set (p := pad_len l) in *.
      destruct p as [|[|[|p]]]; [| | |lia].
      - rewrite <- (Nat.mod_unique x 4 q 0) by lia. reflexivity.
      - rewrite <- (Nat.mod_unique x 4 (q - 1) 3) by lia. reflexivity.
      - rewrite <- (Nat.mod_unique x 4 (q - 1) 2) by lia. reflexivity. }
    rewrite Hpad. unfold B64.atob.
    assert (Hnw : forall c, In c (enc_sextets l) -> B64.is_ascii_ws (b64_char c) = false).
    { intros c Hc. specialize (F c Hc). unfold b64_char_ok in F.
      repeat (apply andb_true_iff in F as [F ?]).
      match goal with H : negb (B64.is_ascii_ws _) = true |- _ => revert H end.
      destruct (B64.is_ascii_ws (b64_char c)); [discriminate|auto]. }
    rewrite filter_app, forallb_filter_id.
    2:{ apply forallb_forall. intros c Hc. apply in_map_iff in Hc as (v & <- & Hv).
        rewrite Hnw by exact Hv. reflexivity. }
    rewrite (forallb_filter_id _ (repeat 61 (pad_len l))).
    2:{ apply forallb_forall. intros c Hc. apply repeat_spec in Hc. subst. reflexivity. }
    rewrite strip_padding_pad; [| | exact Hp |].
    + assert (Hmod : (Z.of_nat (List.length (map b64_char (enc_sextets l))) mod 4 =? 1) = false).
      { rewrite length_map. apply Z.eqb_neq. intros Hm.
        assert (Hz : Z.of_nat (List.length (enc_sextets l)) + Z.of_nat (pad_len l)
                     = 4 * Z.of_nat q) by lia.
        Z.to_euclidean_division_equations; lia. }
      rewrite Hmod, indices_map by exact Hsx.
      rewrite sextets_to_bytes_enc by exact Hl. reflexivity.
    + apply Forall_forall. intros c Hc. apply in_map_iff in Hc as (v & <- & Hv).
      specialize (F v Hv). unfold b64_char_ok in F.
      repeat (apply andb_true_iff in F as [F ?]).
      match goal with H : negb (b64_char v =? 61) = true |- _ => revert H end.
      destruct (Z.eqb_spec (b64_char v) 61); [discriminate|auto].
    + rewrite length_app, length_map, repeat_length.
      rewrite Hq, Nat2Z.inj_mul. rewrite Z.mul_comm. apply Z.mod_mul. lia.
Qed.

End Base64Url.

Section Utf8Encode.

Lemma hex_upper_value_hex_upper (v : Z) :
  0 <= v < 16 -> hex_upper_value (hex_upper v) = Some v.
Proof.
  intros Hv. unfold hex_upper_value, hex_upper.
  destruct (Z.ltb_spec v 10); zcases; try (f_equal; lia); lia.
Qed.

Lemma unescape_escapes (bs t : list Z) :
  bytes_ok bs -> unescape_upper (flat_map percent_escape bs ++ t) = bs ++ unescape_upper t.
Proof.
  induction 1 as [|b bs Hb _ IH]; [reflexivity|].
  cbn [flat_map percent_escape app unescape_upper]. change (37 =? 37) with true. cbv iota.
  rewrite !hex_upper_value_hex_upper by (Z.to_euclidean_division_equations; lia).
  rewrite IH. cbn [app]. f_equal. Z.to_euclidean_division_equations; lia.
Qed.

Lemma uri_unreserved_ascii (c : Z) :
  uri_unreserved c = true -> 33 <= c < 127 /\ c <> 37.
Proof.
  unfold uri_unreserved. intros H.
  repeat (apply orb_true_iff in H as [H|H]);
    try (apply andb_true_iff in H as [H1 H2]; apply Z.leb_le in H1, H2; lia);
    try (apply Z.eqb_eq in H; lia); discriminate.
Qed.

(** The escapes and the UTF-8 decoding agree on one code point. *)
Lemma decode_octets (cp : Z) (t : list Z) :
  0 <= cp <= 1114111 -> ~ (55296 <= cp <= 57343) ->
  bytes_ok (utf8_octets cp)
  /\ Utf8.decode (utf8_octets cp ++ t) = option_map (app (Utf8.utf16 cp)) (Utf8.decode t).
Proof.
  intros Hr Hs. unfold bytes_ok, utf8_octets.
  destruct (Z.ltb_spec cp 128); [|destruct (Z.ltb_spec cp 2048); [|destruct (Z.ltb_spec cp 65536)]].
  - split; [repeat constructor; lia|].
    cbn [app Utf8.decode]. destruct (Z.ltb_spec cp 128); [|lia].
    unfold Utf8.utf16. destruct (Z.leb_spec cp 65535); [|lia]. reflexivity.
  - split; [repeat constructor; Z.to_euclidean_division_equations; lia|].
    set (b1 := 192 + cp / 64). set (b2 := 128 + cp mod 64).
    assert (E : (b1 - 192) * 64 + (b2 - 128) = cp) by (subst b1 b2; Z.to_euclidean_division_equations; lia).
    assert (B1 : 194 <= b1 <= 223) by (subst b1; Z.to_euclidean_division_equations; lia).
    assert (B2 : 128 <= b2 <= 191) by (subst b2; Z.to_euclidean_division_equations; lia).
    clearbody b1 b2. cbn [app].
    remember (b2 :: t) as r1 eqn:Er. cbn [Utf8.decode]. subst r1. cbv iota.
    rewrite E. unfold Utf8.is_cont. zprune.
    unfold Utf8.utf16. zprune; reflexivity.
  - split; [repeat constructor; Z.to_euclidean_division_equations; lia|].
    set (b1 := 224 + cp / 4096). set (b2 := 128 + (cp / 64) mod 64). set (b3 := 128 + cp mod 64).
    assert (E : (b1 - 224) * 4096 + (b2 - 128) * 64 + (b3 - 128) = cp)
      by (subst b1 b2 b3; Z.to_euclidean_division_equations; lia).
    assert (B1 : 224 <= b1 <= 239) by (subst b1; Z.to_euclidean_division_equations; lia).
    assert (B2 : 128 <= b2 <= 191) by (subst b2; Z.to_euclidean_division_equations; lia).
    assert (B3 : 128 <= b3 <= 191) by (subst b3; Z.to_euclidean_division_equations; lia).
    clearbody b1 b2 b3. cbn [app].
    remember (b2 :: b3 :: t) as r1 eqn:Er. cbn [Utf8.decode]. subst r1. cbv iota.
    rewrite E. unfold Utf8.is_cont. zprune.
    all: unfold Utf8.utf16; zprune; reflexivity.
  - split; [repeat constructor; Z.to_euclidean_division_equations; lia|].
    set (b1 := 240 + cp / 262144). set (b2 := 128 + (cp / 4096) mod 64).
    set (b3 := 128 + (cp / 64) mod 64). set (b4 := 128 + cp mod 64).
    assert (E : (b1 - 240) * 262144 + (b2 - 128) * 4096 + (b3 - 128) * 64 + (b4 - 128) = cp)
      by (subst b1 b2 b3 b4; Z.to_euclidean_division_equations; lia).
    assert (B1 : 240 <= b1 <= 244) by (subst b1; Z.to_euclidean_division_equations; lia).
    assert (B2 : 128 <= b2 <= 191) by (subst b2; Z.to_euclidean_division_equations; lia).
    assert (B3 : 128 <= b3 <= 191) by (subst b3; Z.to_euclidean_division_equations; lia).
    assert (B4 : 128 <= b4 <= 191) by (subst b4; Z.to_euclidean_division_equations; lia).
    clearbody b1 b2 b3 b4. cbn [app].
    remember (b2 :: b3 :: b4 :: t) as r1 eqn:Er. cbn [Utf8.decode]. subst r1. cbv iota.
    rewrite E. unfold Utf8.is_cont. zprune. reflexivity.
Qed.

(** The surrogate pair of a supplementary code point. *)
Lemma utf16_pair (c d : Z) :
  55296 <= c <= 56319 -> 56320 <= d <= 57343 ->
  Utf8.utf16 ((c - 55296) * 1024 + (d - 56320) + 65536) = [c; d].
Proof.
  intros Hc Hd. unfold Utf8.utf16. zcases; [lia|].
  f_equal; [|f_equal]; Z.to_euclidean_division_equations; lia.
Qed.

Lemma utf16_single (c : Z) : c <= 65535 -> Utf8.utf16 c = [c].
Proof. intros H. unfold Utf8.utf16. zcases; [reflexivity|lia]. Qed.

Lemma encodeURIComponent_ok : forall s,
  is_code_units s = true -> is_well_formed s = true ->
  exists e, encodeURIComponent s = Some e /\ bytes_ok (unescape_upper e)
            /\ Utf8.decode (unescape_upper e) = Some s.
Proof.
  fix IH 1. intros [|c r] Hu Hw.
  - exists []. repeat split; constructor.
  - cbn [is_code_units forallb] in Hu. apply andb_true_iff in Hu as [Hc Hu].
    apply andb_true_iff in Hc as [Hc0 Hc1]. apply Z.leb_le in Hc0, Hc1.
    change (forallb _ r) with (is_code_units r) in Hu.
    cbn [is_well_formed] in Hw. cbn [encodeURIComponent].
    destruct (uri_unreserved c) eqn:Un.
    + apply uri_unreserved_ascii in Un as [Ua Ub].
      destruct (is_low_surrogate c) eqn:Lo.
      { unfold is_low_surrogate in Lo. apply andb_true_iff in Lo as [Lo _]. apply Z.leb_le in Lo. lia. }
      assert (Hw' : is_well_formed r = true).
      { destruct (is_high_surrogate c) eqn:Hi; [|exact Hw].
        unfold is_high_surrogate in Hi. apply andb_true_iff in Hi as [Hi _]. apply Z.leb_le in Hi. lia. }
      destruct (IH r Hu Hw') as (e & He & Hb & Hd).
      exists (c :: e). rewrite He. split; [reflexivity|].
      cbn [unescape_upper]. destruct (Z.eqb_spec c 37); [lia|].
      split; [constructor; [lia|exact Hb]|].
      cbn [Utf8.decode]. destruct (Z.ltb_spec c 128); [|lia]. rewrite Hd. reflexivity.
    + destruct (is_low_surrogate c) eqn:Lo; [discriminate|].
      destruct (is_high_surrogate c) eqn:Hi.
      * destruct r as [|d r']; [discriminate|].
        apply andb_true_iff in Hw as [Ld Hw].
        rewrite Ld.
        cbn [is_code_units forallb] in Hu. apply andb_true_iff in Hu as [_ Hu].
        change (forallb _ r') with (is_code_units r') in Hu.
        destruct (IH r' Hu Hw) as (e & He & Hb & Hd).
        rewrite He. cbn [option_map].
        unfold is_high_surrogate in Hi. unfold is_low_surrogate in Ld.
        apply andb_true_iff in Hi as [Hi0 Hi1]. apply andb_true_iff in Ld as [Ld0 Ld1].
        apply Z.leb_le in Hi0, Hi1, Ld0, Ld1.
        set (cp := (c - 55296) * 1024 + (d - 56320) + 65536).
        destruct (decode_octets cp (unescape_upper e) ltac:(subst cp; lia) ltac:(subst cp; lia))
          as [Ho Hdec].
        eexists. split; [reflexivity|].
        rewrite unescape_escapes by exact Ho.
        split; [apply Forall_app; split; assumption|].
        rewrite Hdec, Hd. cbn [option_map]. subst cp. rewrite utf16_pair by lia. reflexivity.
      * destruct (IH r Hu Hw) as (e & He & Hb & Hd).
        rewrite He. cbn [option_map].
        assert (Hns : ~ (55296 <= c <= 57343)).
        { unfold is_high_surrogate, is_low_surrogate in *.
          apply andb_false_iff in Hi, Lo. intros Hcs.
          destruct Hi as [Hi|Hi]; destruct Lo as [Lo|Lo]; apply Z.leb_gt in Hi, Lo; lia. }
        destruct (decode_octets c (unescape_upper e) ltac:(lia) Hns) as [Ho Hdec].
        eexists. split; [reflexivity|].
        rewrite unescape_escapes by exact Ho.
        split; [apply Forall_app; split; assumption|].
        rewrite Hdec, Hd. cbn [option_map]. rewrite utf16_single by lia. reflexivity.
Qed.

Lemma encodeURIComponent_lone : forall s,
  is_well_formed s = false -> encodeURIComponent s = None.
Proof.
  fix IH 1. intros [|c r] Hw; [discriminate|].
  cbn [is_well_formed] in Hw. cbn [encodeURIComponent].
  destruct (uri_unreserved c) eqn:Un.
  - apply uri_unreserved_ascii in Un as [Ua _].
    assert (Lo : is_low_surrogate c = false)
      by (unfold is_low_surrogate; apply andb_false_iff; left; apply Z.leb_gt; lia).
    assert (Hi : is_high_surrogate c = false)
      by (unfold is_high_surrogate; apply andb_false_iff; left; apply Z.leb_gt; lia).
    rewrite Lo, Hi in Hw. rewrite (IH r Hw). reflexivity.
  - destruct (is_low_surrogate c); [reflexivity|].
    destruct (is_high_surrogate c).
    + destruct r as [|d r']; [reflexivity|].
      destruct (is_low_surrogate d); [|reflexivity].
      cbn [andb] in Hw. rewrite (IH r' Hw). reflexivity.
    + rewrite (IH r Hw). reflexivity.
Qed.

End Utf8Encode.

Section DecodeRange.

Lemma indices_range : forall d is, B64.indices d = Some is -> Forall (fun v => 0 <= v < 64) is.
Proof.
  induction d as [|c d IH]; intros is H.
  - injection H as <-. constructor.
  - cbn [B64.indices] in H.
    destruct (B64.b64_index c) as [i|] eqn:Ei; [|discriminate].
    destruct (B64.indices d) as [is'|]; [|discriminate].
    injection H as <-. constructor; [|apply IH; reflexivity].
    revert Ei. unfold B64.b64_index. zprune; intros Ei; try discriminate; injection Ei as <-; lia.
Qed.

Lemma sextets_to_bytes_range : forall l,
  Forall (fun v => 0 <= v < 64) l -> bytes_ok (B64.sextets_to_bytes l).
Proof.
  fix IH 1. intros [|a [|b [|c [|d r]]]] H; unfold bytes_ok; forall_cons.
  - constructor.
  - constructor.
  - cbn. repeat constructor; Z.to_euclidean_division_equations; lia.
  - cbn. repeat constructor; Z.to_euclidean_division_equations; lia.
  - cbn [B64.sextets_to_bytes].
    repeat (apply Forall_cons; [Z.to_euclidean_division_equations; lia|]).
    apply IH. repeat (apply Forall_cons; [assumption|]). assumption.
Qed.

Lemma atob_bytes (s l : list Z) : B64.atob s = Some l -> bytes_ok l.
Proof.
  unfold B64.atob. destruct (_ =? 1); [discriminate|].
  destruct (B64.indices _) as [is|] eqn:E; [|discriminate].
  intros H. injection H as <-. apply sextets_to_bytes_range, (indices_range _ _ E).
Qed.

Lemma is_code_units_cons (c : Z) (s : list Z) :
  is_code_units (c :: s) = ((0 <=? c) && (c <=? 65535)) && is_code_units s.
Proof. reflexivity. Qed.

Lemma well_formed_app_single (c : Z) (s : list Z) :
  ~ (55296 <= c <= 57343) -> is_well_formed (c :: s) = is_well_formed s.
Proof.
  intros Hc. cbn [is_well_formed]. unfold is_low_surrogate, is_high_surrogate.
  zprune; reflexivity.
Qed.

Lemma decode_well_formed : forall l str,
  bytes_ok l -> Utf8.decode l = Some str ->
  is_code_units str = true /\ is_well_formed str = true.
Proof.
  fix IH 1. intros [|b1 r1] str Hb Hd.
  - injection Hd as <-. split; reflexivity.
  - unfold bytes_ok in Hb. forall_cons.
    cbn [Utf8.decode] in Hd. unfold Utf8.is_cont in Hd. revert Hd.
    assert (Hcls : b1 < 128 \/ 128 <= b1 < 192 \/ 192 <= b1 <= 223 \/ 224 <= b1 <= 239
                   \/ 240 <= b1 <= 247 \/ 247 < b1) by lia.
    destruct Hcls as [Hc|[Hc|[Hc|[Hc|[Hc|Hc]]]]]; zprune; intros Hd; try discriminate.
    + destruct (Utf8.decode r1) as [s'|] eqn:Er; [|discriminate].
      injection Hd as <-. destruct (IH r1 s' ltac:(assumption) Er) as [Hu Hw].
      split; [rewrite is_code_units_cons, Hu; zprune; reflexivity|].
      rewrite well_formed_app_single by lia. exact Hw.
    + destruct r1 as [|b2 r2]; [discriminate|]. forall_cons.
      revert Hd; zprune; intros Hd; try discriminate.
      destruct (Utf8.decode r2) as [s'|] eqn:Er; [|discriminate].
      injection Hd as <-. destruct (IH r2 s' ltac:(assumption) Er) as [Hu Hw].
      unfold Utf8.utf16. zprune.
      split; [cbn [app]; rewrite is_code_units_cons, Hu; zprune; reflexivity|].
      cbn [app]. rewrite well_formed_app_single by lia. exact Hw.
    + destruct r1 as [|b2 [|b3 r3]]; try discriminate. forall_cons.
      revert Hd; zprune; intros Hd; try discriminate;
      (destruct (Utf8.decode r3) as [s'|] eqn:Er; [|discriminate];
       injection Hd as <-; destruct (IH r3 s' ltac:(assumption) Er) as [Hu Hw];
       unfold Utf8.utf16; zprune;
       split; [cbn [app]; rewrite is_code_units_cons, Hu; zprune; reflexivity|];
       cbn [app]; rewrite well_formed_app_single by lia; exact Hw).
    + destruct r1 as [|b2 [|b3 [|b4 r4]]]; try discriminate. forall_cons.
      revert Hd; zprune; intros Hd; try discriminate;
      (destruct (Utf8.decode r4) as [s'|] eqn:Er; [|discriminate];
       injection Hd as <-; destruct (IH r4 s' ltac:(assumption) Er) as [Hu Hw];
       set (cp := (b1 - 240) * 262144 + (b2 - 128) * 4096 + (b3 - 128) * 64 + (b4 - 128)) in *;
       unfold Utf8.utf16; zprune; cbn [app];
       split; [rewrite !is_code_units_cons, Hu; zprune; try reflexivity;
               Z.to_euclidean_division_equations; lia|];
       cbn [is_well_formed]; unfold is_low_surrogate, is_high_surrogate;
       zprune; try (Z.to_euclidean_division_equations; lia); exact Hw).
Qed.

End DecodeRange.

Section EncodeTheorems.

Lemma base64UrlEncode_ok (s : list Z) :
  is_code_units s = true -> is_well_formed s = true -> s <> [] ->
  base64UrlEncode s <> [] /\ forallb is_b64url_char (base64UrlEncode s) = true
  /\ base64UrlDecode (base64UrlEncode s) = Some s.
Proof.
  intros Hu Hw Hne.
  destruct (encodeURIComponent_ok s Hu Hw) as (e & He & Hb & Hd).
  unfold base64UrlEncode. rewrite He. unfold btoa.
  assert (Hf : forallb (fun c => c <=? 255) (unescape_upper e) = true).
  { apply forallb_forall. intros c Hc. unfold bytes_ok in Hb. rewrite Forall_forall in Hb.
    apply Z.leb_le, Hb, Hc. }
  rewrite Hf.
  assert (Hne' : unescape_upper e <> []) by (intros E; rewrite E in Hd; injection Hd; auto).
  destruct (b64url_roundtrip (unescape_upper e) Hb Hne') as (H1 & H2 & H3).
  rewrite H3, Hd. auto.
Qed.

(** X1. [base64UrlEncode] returns the empty string exactly when its input
    is empty or holds a lone surrogate (the [URIError] of
    [encodeURIComponent] is caught). *)
Theorem base64UrlEncode_empty_iff (s : list Z) :
  is_code_units s = true ->
  (base64UrlEncode s = [] <-> s = [] \/ is_well_formed s = false).
Proof.
  intros Hu. split.
  - intros He. destruct s as [|c r]; [left; reflexivity|right].
    destruct (is_well_formed (c :: r)) eqn:Hw; [|reflexivity].
    exfalso. apply (proj1 (base64UrlEncode_ok (c :: r) Hu Hw ltac:(discriminate))), He.
  - intros [->|Hw]; [reflexivity|].
    unfold base64UrlEncode. rewrite encodeURIComponent_lone by exact Hw. reflexivity.
Qed.

(** X2. Every character of [base64UrlEncode]'s output is a letter, a
    digit, [-] or [_]: no [+], [/] or [=] padding is left. *)
Theorem base64UrlEncode_alphabet (s : list Z) :
  is_code_units s = true -> forallb is_b64url_char (base64UrlEncode s) = true.
Proof.
  intros Hu. destruct s as [|c r]; [reflexivity|].
  destruct (is_well_formed (c :: r)) eqn:Hw.
  - apply (base64UrlEncode_ok (c :: r) Hu Hw ltac:(discriminate)).
  - unfold base64UrlEncode. rewrite encodeURIComponent_lone by exact Hw. reflexivity.
Qed.

(** X3. [base64UrlDecode] inverts [base64UrlEncode] on every non-empty
    string without lone surrogates. *)
Theorem base64Url_roundtrip (s : list Z) :
  is_code_units s = true -> is_well_formed s = true -> s <> [] ->
  base64UrlDecode (base64UrlEncode s) = Some s.
Proof. intros Hu Hw Hne. apply (base64UrlEncode_ok s Hu Hw Hne). Qed.

(** X4. Whatever [base64UrlDecode] returns is a well-formed string of
    UTF-16 code units, so encoding it again and decoding gives it back
    when it is not empty. *)
Theorem base64UrlDecode_well_formed (s str : list Z) :
  base64UrlDecode s = Some str ->
  is_code_units str = true /\ is_well_formed str = true
  /\ (str <> [] -> base64UrlDecode (base64UrlEncode str) = Some str).
Proof.
  intros H. unfold base64UrlDecode in H. destruct s as [|c r]; [discriminate|].
  destruct (B64.atob _) as [bytes|] eqn:Ea; [|discriminate].
  destruct (decode_well_formed bytes str (atob_bytes _ _ Ea) H) as [Hu Hw].
  split; [exact Hu|split; [exact Hw|]].
  intros Hne. apply (base64UrlEncode_ok str Hu Hw Hne).
Qed.

End EncodeTheorems.

Lemma base64UrlEncode_empty_iff_witness :
  base64UrlEncode [55296; 97] = [] /\ is_well_formed [55296; 97] = false.
Proof.
  split; [|reflexivity].
  apply (proj2 (base64UrlEncode_empty_iff [55296; 97] eq_refl)). right. reflexivity.
Defined.

Lemma base64UrlEncode_alphabet_witness :
  forallb is_b64url_char (base64UrlEncode [104; 233; 8364; 55357; 56832; 43; 47]) = true.
Proof. apply base64UrlEncode_alphabet. reflexivity. Defined.

Lemma base64Url_roundtrip_witness :
  base64UrlDecode (base64UrlEncode [104; 233; 8364; 55357; 56832; 43; 47])
  = Some [104; 233; 8364; 55357; 56832; 43; 47].
Proof. apply base64Url_roundtrip; [reflexivity|reflexivity|discriminate]. Defined.

Lemma base64UrlDecode_well_formed_witness :
  is_code_units [104; 233] = true /\ is_well_formed [104; 233] = true
  /\ ([104; 233] <> [] -> base64UrlDecode (base64UrlEncode [104; 233]) = Some [104; 233]).
Proof. apply (base64UrlDecode_well_formed (js "aMOp")). vm_compute. reflexivity. Defined.

Section Items.

Lemma flat_map_combine (m : Z) (L : list (list Z)) (k : nat) :
  flat_map (fun p => if Z.testbit m (fst p)
                     then [{| item_id := string_of_index (fst p); item_label := snd p |}]
                     else [])
    (combine (map Z.of_nat (seq k (List.length L))) L)
  = map (fun i => {| item_id := string_of_index i; item_label := nth (Z.to_nat i - k) L [] |})
      (filter (Z.testbit m) (map Z.of_nat (seq k (List.length L)))).
Proof.
  revert k. induction L as [|a L IH]; intros k; [reflexivity|].
  cbn [List.length seq map combine flat_map filter fst snd].
  rewrite IH.
  assert (E : map (fun i => {| item_id := string_of_index i; item_label := nth (Z.to_nat i - S k) L [] |})
                (filter (Z.testbit m) (map Z.of_nat (seq (S k) (List.length L))))
            = map (fun i => {| item_id := string_of_index i; item_label := nth (Z.to_nat i - k) (a :: L) [] |})
                (filter (Z.testbit m) (map Z.of_nat (seq (S k) (List.length L))))).
  { apply map_ext_in. intros i Hi. apply filter_In in Hi as [Hi _].
    apply in_map_iff in Hi as [j [<- Hj]]. apply in_seq in Hj.
    rewrite Nat2Z.id. replace (j - k)%nat with (S (j - S k)) by lia. reflexivity. }
  rewrite E.
  destruct (Z.testbit m (Z.of_nat k)); [|reflexivity].
  cbn [map app]. rewrite Nat2Z.id, Nat.sub_diag. reflexivity.
Qed.

Lemma items_of_mask_available (msk : jsnum) :
  items_of_mask msk = map item_at (available (jsnum_to_int32 msk)).
Proof.
  unfold items_of_mask, available, item_at. rewrite flat_map_combine.
  apply map_ext. intros i. rewrite Nat.sub_0_r. reflexivity.
Qed.

Lemma decodeState_compact_items (s : list Z) (msk : jsnum) (it : list item) (c : option jsnum) :
  decodeState s = Some (DCompact msk it c) -> it = items_of_mask msk.
Proof.
  destruct s as [|x l]; [discriminate|]. rewrite decodeState_cons.
  destruct (decode_legacy (x :: l)); [discriminate|].
  unfold decode_compact. destruct (compact_match (x :: l)) as [[d1 d2]|]; [|discriminate].
  intros H. injection H as <- <- _. reflexivity.
Qed.

End Items.

Section DrawLink.

(** A time below [2^53] that a compact token decodes to is a whole,
    non-negative number of seconds. *)
Lemma compact_createdAt (s : list Z) (msk : jsnum) (it : list item) (t : Z) :
  decodeState s = Some (DCompact msk it (Some (JFin t))) -> t < 2 ^ 53 ->
  0 <= t /\ t mod 1000 = 0.
Proof.
  destruct s as [|x l]; [discriminate|]. rewrite decodeState_cons.
  destruct (decode_legacy (x :: l)); [discriminate|].
  unfold decode_compact. destruct (compact_match (x :: l)) as [[d1 [d2|]]|]; try discriminate.
  intros H Htb. injection H as _ _ Ht. unfold times1000, parseInt36 in Ht.
  destruct (to_number (parse36 d2)) as [z|] eqn:E1; [|discriminate].
  unfold to_number in E1. destruct (double_overflow <=? parse36 d2); [discriminate|].
  injection E1 as E1.
  pose proof (round53_nonneg _ (parse36_nonneg d2)) as Hz. rewrite E1 in Hz.
  unfold to_number in Ht. destruct (double_overflow <=? z * 1000); [discriminate|].
  injection Ht as Ht.
  destruct (Z.lt_ge_cases (z * 1000) (2 ^ 53)) as [Hs|Hs].
  - rewrite round53_small in Ht by lia. subst t.
    split; [lia|]. apply Z.mod_mul. lia.
  - apply round53_large in Hs. lia.
Qed.

Lemma draw_link_compact (s : list Z) (msk : jsnum) (it : list item) (c : option jsnum)
    (r : Q) (now : Z) :
  decodeState s = Some (DCompact msk it c) ->
  draw_link s r now =
  match available (jsnum_to_int32 msk) with
  | [] => None
  | av => let idx := nth (pick_position r (List.length av)) av 0 in
          Some (idx, next_token (Z.land (jsnum_to_int32 msk) (Z.lnot (Z.shiftl 1 idx))) c)
  end.
Proof.
  intros Hd. unfold draw_link. rewrite Hd.
  rewrite (drawOne_eq (DCompact msk it c) (jsnum_to_int32 msk)) by reflexivity.
  destruct (available (jsnum_to_int32 msk)); reflexivity.
Qed.

Lemma next_token_decode (nm : Z) (c : option jsnum) :
  0 <= nm <= 511 ->
  (forall t, c = Some (JFin t) -> 0 <= t < 2 ^ 53 /\ t mod 1000 = 0) -> c <> Some JInf ->
  decodeState (next_token nm c)
  = Some (DCompact (JFin nm) (items_of_mask (JFin nm))
            match c with Some (JFin 0) => None | _ => c end).
Proof.
  intros Hm Hc Hi. destruct c as [[t|]|]; [|congruence|].
  - destruct (Hc t eq_refl) as [Ht Hmod]. unfold next_token.
    rewrite decode_encoded by (auto; intros t' E; injection E as <-; lia).
    do 2 f_equal.
    assert (E : t / 1000 * 1000 = t) by (Z.to_euclidean_division_equations; lia).
    rewrite E. destruct t; reflexivity.
  - unfold next_token. rewrite decode_encoded by (auto; discriminate). reflexivity.
Qed.

Lemma filter_clear (m idx : Z) (l : list Z) :
  0 <= idx -> Forall (fun i => 0 <= i) l ->
  filter (Z.testbit (Z.land m (Z.lnot (Z.shiftl 1 idx)))) l
  = filter (fun i => negb (idx =? i)) (filter (Z.testbit m) l).
Proof.
  intros Hidx. induction l as [|i l IH]; intros Hl; [reflexivity|].
  apply Forall_cons_iff in Hl as [Hi Hl]. cbn [filter].
  rewrite testbit_clear by assumption.
  destruct (Z.testbit m i); cbn [andb filter]; rewrite IH by assumption; reflexivity.
Qed.

Lemma available_clear (m idx : Z) :
  0 <= idx ->
  available (Z.land m (Z.lnot (Z.shiftl 1 idx)))
  = filter (fun i => negb (idx =? i)) (available m).
Proof.
  intros Hidx. unfold available. apply filter_clear; [assumption|].
  apply Forall_forall. intros i Hi. apply in_map_iff in Hi as [k [<- _]]. lia.
Qed.

Lemma perm_remove (x : Z) (l : list Z) :
  NoDup l -> In x l -> Permutation l (x :: filter (fun i => negb (x =? i)) l).
Proof.
  induction l as [|a l IH]; intros Hn Hx; [destruct Hx|].
  apply NoDup_cons_iff in Hn as [Ha Hn]. cbn [filter].
  destruct (Z.eqb_spec x a) as [<-|Hne]; cbn [negb].
  - apply perm_skip. rewrite forallb_filter_id; [reflexivity|].
    apply forallb_forall. intros y Hy. destruct (Z.eqb_spec x y) as [<-|]; [contradiction|reflexivity].
  - destruct Hx as [->|Hx]; [congruence|].
    eapply perm_trans; [apply perm_skip, IH; assumption|]. apply perm_swap.
Qed.

Lemma to_int32_small (m : Z) : 0 <= m < 2 ^ 31 -> to_int32 m = m.
Proof.
  intros Hm. unfold to_int32. rewrite Z.mod_small by lia.
  destruct (Z.leb_spec (2 ^ 31) m); lia.
Qed.

Lemma play_compact : forall draws tok m c,
  decodeState tok = Some (DCompact (JFin m) (items_of_mask (JFin m)) c) ->
  0 <= m <= 511 -> time_ok c ->
  List.length draws = List.length (available m) ->
  Forall (fun p => (0 <= fst p < 1)%Q) draws ->
  Permutation (fst (play tok draws)) (available m)
  /\ exists m' c', decodeState (snd (play tok draws))
                   = Some (DCompact (JFin m') (items_of_mask (JFin m')) c')
                   /\ 0 <= m' <= 511 /\ available m' = [].
Proof.
  induction draws as [|[r now] ds IH]; intros tok m c Hd Hm [Hi Hc] Hlen Hr.
  - cbn [play fst snd]. split.
    + destruct (available m); [reflexivity|discriminate].
    + exists m, c. split; [exact Hd|]. split; [exact Hm|].
      destruct (available m); [reflexivity|discriminate].
  - apply Forall_cons_iff in Hr as [Hr0 Hr]. cbn [fst] in Hr0.
    pose proof (draw_link_compact _ _ _ _ r now Hd) as Hl.
    cbn [jsnum_to_int32] in Hl. rewrite to_int32_small in Hl by lia.
    set (av := available m) in *.
    assert (Hav : av <> []) by (intros E; rewrite E in Hlen; discriminate).
    set (idx := nth (pick_position r (List.length av)) av 0).
    assert (Hin : In idx av).
    { apply nth_In, pick_position_lt; [assumption|]. destruct av; [congruence|cbn; lia]. }
    assert (Hidx : 0 <= idx < N) by (apply available_spec in Hin; lia).
    assert (Hl' : draw_link tok r now
                  = Some (idx, next_token (Z.land m (Z.lnot (Z.shiftl 1 idx))) c))
      by (rewrite Hl; destruct av; [congruence|reflexivity]).
    set (nm := Z.land m (Z.lnot (Z.shiftl 1 idx))) in *.
    set (c' := match c with Some (JFin 0) => None | _ => c end).
    assert (Hnm : 0 <= nm <= 511) by (apply land_range; lia).
    assert (Hd' : decodeState (next_token nm c)
                  = Some (DCompact (JFin nm) (items_of_mask (JFin nm)) c'))
      by (apply next_token_decode; assumption).
    assert (Hc' : time_ok c').
    { split.
      - unfold c'. destruct c as [[[|p|p]|]|]; congruence.
      - intros t Et. apply Hc. unfold c' in Et. destruct c as [[[|p|p]|]|]; congruence. }
    assert (Hperm : Permutation av (idx :: available nm)).
    { unfold nm. rewrite available_clear by lia. apply perm_remove; [apply available_NoDup|exact Hin]. }
    assert (Hlen' : List.length ds = List.length (available nm)).
    { rewrite (Permutation_length Hperm) in Hlen. cbn [List.length] in Hlen. lia. }
    destruct (IH _ _ _ Hd' Hnm Hc' Hlen' Hr) as [Hp Hlast].
    cbn [play]. rewrite Hl'.
    destruct (play (next_token nm c) ds) as [ps last] eqn:Ep. cbn [fst snd] in Hp, Hlast |- *.
    split; [|exact Hlast].
    eapply perm_trans; [apply perm_skip, Hp|]. apply Permutation_sym, Hperm.
Qed.

End DrawLink.

Section DrawTheorems.

(** X5. On a compact link, the [items] the page lists (and counts as
    remaining) are exactly the themes [drawOne] can pick: the draw does
    nothing when the list is empty, and otherwise picks a theme of the
    list and keeps [meta] as it is. *)
Theorem compact_items_match_draw (s : list Z) (msk : jsnum) (it : list item)
    (c : option jsnum) (r : Q) (now : Z) :
  decodeState s = Some (DCompact msk it c) -> (0 <= r < 1)%Q ->
  it = map item_at (available (jsnum_to_int32 msk))
  /\ (it = [] -> drawOne (decodeState s) r now = Exhausted)
  /\ (it <> [] -> exists idx nm, drawOne (decodeState s) r now = Picked idx nm (MetaOf c)
                                 /\ In (item_at idx) it).
Proof.
  intros Hd Hr.
  assert (Hit : it = map item_at (available (jsnum_to_int32 msk)))
    by (rewrite (decodeState_compact_items s msk it c Hd); apply items_of_mask_available).
  split; [exact Hit|]. rewrite Hd.
  rewrite (drawOne_eq (DCompact msk it c) (jsnum_to_int32 msk)) by reflexivity.
  rewrite Hit. destruct (available (jsnum_to_int32 msk)) as [|a l] eqn:Ea.
  - split; [reflexivity|]. intros H. exfalso. apply H. reflexivity.
  - split; [discriminate|]. intros _. eexists _, _. split; [reflexivity|].
    apply in_map. apply nth_In, pick_position_lt; [exact Hr|]. cbn. lia.
Qed.

(** X6. The link a draw on a compact link pushes decodes to the mask
    with the picked bit cleared and to the same [createdAt], a zero
    [createdAt] coming back as none. *)
Theorem draw_link_next_state (s s' : list Z) (msk : jsnum) (it : list item)
    (c : option jsnum) (r : Q) (now idx : Z) :
  decodeState s = Some (DCompact msk it c) ->
  0 <= jsnum_to_int32 msk <= 511 ->
  c <> Some JInf -> (forall t, c = Some (JFin t) -> t < 2 ^ 53) ->
  draw_link s r now = Some (idx, s') ->
  decodeState s'
  = Some (DCompact (JFin (Z.land (jsnum_to_int32 msk) (Z.lnot (Z.shiftl 1 idx))))
            (items_of_mask (JFin (Z.land (jsnum_to_int32 msk) (Z.lnot (Z.shiftl 1 idx)))))
            match c with Some (JFin 0) => None | _ => c end).
Proof.
  intros Hd Hm Hi Hc Hl. rewrite (draw_link_compact s msk it c r now Hd) in Hl.
  destruct (available (jsnum_to_int32 msk)) as [|a l]; [discriminate|].
  injection Hl as <- <-. apply next_token_decode; [apply land_range; exact Hm| |exact Hi].
  intros t Et. subst c. specialize (Hc t eq_refl).
  destruct (compact_createdAt s msk it t Hd Hc) as [H0 H1]. lia.
Qed.

(** X7. Starting from the link [createInitialLink] makes, nine draws,
    each on the link the previous one pushed, pick every theme exactly
    once, and the last link leaves nothing to draw. *)
Theorem play_full_round (now : Z) (draws : list (Q * Z)) :
  0 <= now < 2 ^ 53 -> List.length draws = 9%nat ->
  Forall (fun p => (0 <= fst p < 1)%Q) draws ->
  Permutation (fst (play (encodeState (initial_state now)) draws)) [0; 1; 2; 3; 4; 5; 6; 7; 8]
  /\ forall r now', drawOne (decodeState (snd (play (encodeState (initial_state now)) draws))) r now'
                    = Exhausted.
Proof.
  intros Hn Hlen Hr.
  assert (Hi : initial_state now = {| remaining := 511; createdAt := Some now |}) by reflexivity.
  rewrite Hi.
  pose proof (decode_encoded 511 (Some now) ltac:(lia)
                ltac:(intros t E; injection E as <-; lia)) as Hd.
  assert (Hc : time_ok (if now =? 0 then None else Some (JFin (now / 1000 * 1000)))).
  { destruct (now =? 0); split; try discriminate; intros t E.
    injection E as <-. split; [|apply Z.mod_mul; lia].
    pose proof (Z.mul_div_le now 1000 ltac:(lia)).
    assert (0 <= now / 1000) by (apply Z.div_pos; lia). lia. }
  destruct (play_compact draws _ _ _ Hd ltac:(lia) Hc ltac:(rewrite Hlen; reflexivity) Hr)
    as [Hp (m' & c' & Hlast & Hm' & Hav)].
  split; [exact Hp|]. intros r' now'. rewrite Hlast.
  rewrite (drawOne_eq _ m')
    by (try reflexivity; cbn [state_mask jsnum_to_int32]; rewrite to_int32_small by lia; reflexivity).
  rewrite Hav. reflexivity.
Qed.

End DrawTheorems.

Lemma compact_items_match_draw_witness :
  items_of_mask (JFin 15) = map item_at (available (jsnum_to_int32 (JFin 15)))
  /\ (items_of_mask (JFin 15) = [] -> drawOne (decodeState (js "mf")) (1 # 2) 0 = Exhausted)
  /\ (items_of_mask (JFin 15) <> [] ->
      exists idx nm, drawOne (decodeState (js "mf")) (1 # 2) 0 = Picked idx nm (MetaOf None)
                     /\ In (item_at idx) (items_of_mask (JFin 15))).
Proof.
  apply compact_items_match_draw; [vm_compute; reflexivity|split; [discriminate|reflexivity]].
Defined.

Lemma draw_link_next_state_witness :
  decodeState (js "me.tk")
  = Some (DCompact (JFin 14) (items_of_mask (JFin 14)) (Some (JFin 20000))).
Proof.
  refine (draw_link_next_state (js "mf.tk") (js "me.tk") (JFin 15) (items_of_mask (JFin 15))
            (Some (JFin 20000)) 0 0 0 _ _ _ _ _).
  - vm_compute. reflexivity.
  - vm_compute. split; discriminate.
  - discriminate.
  - intros t E. injection E as <-. lia.
  - vm_compute. reflexivity.
Defined.

Lemma play_full_round_witness :
  Permutation (fst (play (encodeState (initial_state 1700000000000))
                     [(0%Q, 1700000000000); (1 # 2, 1700000001000); (9 # 10, 1700000002000);
                      (1 # 3, 1700000003000); (0%Q, 1700000004000); (3 # 4, 1700000005000);
                      (1 # 7, 1700000006000); (5 # 6, 1700000007000); (0%Q, 1700000008000)]))
    [0; 1; 2; 3; 4; 5; 6; 7; 8]
  /\ forall r now', drawOne (decodeState (snd (play (encodeState (initial_state 1700000000000))
                     [(0%Q, 1700000000000); (1 # 2, 1700000001000); (9 # 10, 1700000002000);
                      (1 # 3, 1700000003000); (0%Q, 1700000004000); (3 # 4, 1700000005000);
                      (1 # 7, 1700000006000); (5 # 6, 1700000007000); (0%Q, 1700000008000)])))
                    r now' = Exhausted.
Proof.
  apply play_full_round; [lia|reflexivity|].
  repeat constructor; cbv [fst]; vm_compute; discriminate.
Defined.

Section Legacy.

Lemma testbit_small (a k i : Z) : 0 <= a < 2 ^ k -> 0 <= k <= i -> Z.testbit a i = false.
Proof.
  intros Ha Hk. rewrite <- (Z.mod_small a (2 ^ k)) by lia.
  apply Z.mod_pow2_bits_high. lia.
Qed.

Lemma set_bit32_small (acc k : Z) :
  0 <= k < 31 -> 0 <= acc < 2 ^ k ->
  set_bit32 acc k = Z.lor acc (2 ^ k) /\ 0 <= Z.lor acc (2 ^ k) < 2 ^ (k + 1).
Proof.
  intros Hk Ha.
  assert (Hb : 0 <= Z.lor acc (2 ^ k) < 2 ^ (k + 1)).
  { split; [apply Z.lor_nonneg; split; [lia|apply Z.pow_nonneg; lia]|].
    assert (Hpos : 0 < Z.lor acc (2 ^ k)).
    { pose proof (Z.lor_nonneg acc (2 ^ k)).
      assert (Z.lor acc (2 ^ k) <> 0).
      { intros E. apply Z.lor_eq_0_iff in E as [_ E]. pose proof (Z.pow_pos_nonneg 2 k). lia. }
      lia. }
    apply Z.log2_lt_pow2; [exact Hpos|].
    rewrite Z.log2_lor by (try apply Z.pow_nonneg; lia).
    rewrite Z.log2_pow2 by lia.
    destruct (Z.eq_dec acc 0) as [->|Hne].
    - rewrite Z.log2_nonpos by lia. lia.
    - assert (Z.log2 acc < k) by (apply Z.log2_lt_pow2; lia). lia. }
  split; [|exact Hb].
  unfold set_bit32. rewrite Z.mod_small by lia. rewrite Z.shiftl_1_l.
  rewrite (to_int32_small (2 ^ k)) by (split; [apply Z.pow_nonneg; lia|apply Z.pow_lt_mono_r; lia]).
  apply to_int32_small. split; [lia|].
  apply (Z.lt_le_trans _ (2 ^ (k + 1))); [lia|apply Z.pow_le_mono_r; lia].
Qed.

Lemma reduce_items_bits (xs : list json) : forall n k acc m,
  0 <= k -> k + Z.of_nat n <= 31 -> 0 <= acc < 2 ^ k ->
  reduce_items xs k n acc = Some m ->
  0 <= m < 2 ^ (k + Z.of_nat n)
  /\ forall i, 0 <= i ->
       (Z.testbit m i = true
        <-> (i < k /\ Z.testbit acc i = true)
            \/ (k <= i < k + Z.of_nat n /\ some_matches xs i = Some true)).
Proof.
  induction n as [|n IH]; intros k acc m Hk Hn Ha Hr.
  - cbn in Hr. injection Hr as <-. rewrite Z.add_0_r. split; [exact Ha|].
    intros i Hi. split.
    + intros Hb. left. split; [|exact Hb].
      destruct (Z.lt_ge_cases i k) as [|Hge]; [assumption|].
      rewrite (testbit_small acc k i) in Hb by lia. discriminate.
    + intros [[_ Hb]|[H _]]; [exact Hb|lia].
  - cbn [reduce_items] in Hr. rewrite Nat2Z.inj_succ in Hn |- *.
    destruct (some_matches xs k) as [[|]|] eqn:Es; [| |discriminate].
    + destruct (set_bit32_small acc k ltac:(lia) Ha) as [Es' Hb]. rewrite Es' in Hr.
      destruct (IH (k + 1) _ m ltac:(lia) ltac:(lia) Hb Hr) as [Hm Hbits].
      split; [replace (k + Z.succ (Z.of_nat n)) with (k + 1 + Z.of_nat n) by lia; exact Hm|].
      intros i Hi. rewrite Hbits by exact Hi.
      rewrite Z.lor_spec, Z.pow2_bits_eqb by lia.
      destruct (Z.eqb_spec k i) as [<-|Hne].
      * rewrite orb_true_r. split; [intros _; right; split; [lia|exact Es]|intros _; left; split; [lia|reflexivity]].
      * rewrite orb_false_r. split.
        -- intros [[H1 H2]|[H1 H2]]; [left; split; [lia|exact H2]|right; split; [lia|exact H2]].
        -- intros [[H1 H2]|[H1 H2]]; [left; split; [lia|exact H2]|right; split; [lia|exact H2]].
    + assert (Hb : 0 <= acc < 2 ^ (k + 1)).
      { split; [lia|]. apply (Z.lt_le_trans _ (2 ^ k)); [lia|apply Z.pow_le_mono_r; lia]. }
      destruct (IH (k + 1) _ m ltac:(lia) ltac:(lia) Hb Hr) as [Hm Hbits].
      split; [replace (k + Z.succ (Z.of_nat n)) with (k + 1 + Z.of_nat n) by lia; exact Hm|].
      intros i Hi. rewrite Hbits by exact Hi.
      destruct (Z.eq_dec i k) as [->|Hne].
      * rewrite (testbit_small acc k k) by lia. rewrite Es. split.
        -- intros [[H1 H2]|[H1 H2]]; [discriminate|lia].
        -- intros [[H1 H2]|[H1 H2]]; [lia|discriminate].
      * split.
        -- intros [[H1 H2]|[H1 H2]].
           ++ destruct (Z.lt_ge_cases i k); [left; split; assumption|].
              rewrite (testbit_small acc k i) in H2 by lia. discriminate.
           ++ right. split; [lia|exact H2].
        -- intros [[H1 H2]|[H1 H2]]; [left; split; [lia|exact H2]|right; split; [lia|exact H2]].
Qed.

End Legacy.

(** X8. For a legacy JSON state without a numeric [mask] whose [items]
    is an array of at most 31 elements, the mask [drawOne] rebuilds has
    bit [i] set exactly when [i] is a position of that array and some
    element names theme [i] by [id] or [label]; no bit at or past the
    array's length is ever set. *)
Theorem legacy_mask_bits (v : json) (xs : list json) (m : Z) :
  (forall q, get (js "mask") v <> Some (JNum q)) ->
  get (js "items") v = Some (JArr xs) -> (List.length xs <= 31)%nat ->
  state_mask (DLegacy v) = Some m ->
  0 <= m < 2 ^ Z.of_nat (List.length xs)
  /\ forall i, 0 <= i ->
       (Z.testbit m i = true
        <-> i < Z.of_nat (List.length xs) /\ some_matches xs i = Some true).
Proof.
  intros Hmask Hit Hlen Hs. cbn [state_mask] in Hs.
  assert (Hs' : legacy_mask v = Some m).
  { destruct (get (js "mask") v) as [[]|]; try exact Hs. exfalso. eapply Hmask. reflexivity. }
  unfold legacy_mask in Hs'. rewrite Hit in Hs'. cbn [truthy] in Hs'.
  destruct (reduce_items_bits xs (List.length xs) 0 0 m ltac:(lia) ltac:(lia) ltac:(cbn; lia) Hs') as [Hb Hbits].
  split; [exact Hb|]. intros i Hi. rewrite Hbits by exact Hi.
  rewrite Z.testbit_0_l. split.
  - intros [[_ H]|[H1 H2]]; [discriminate|split; [lia|exact H2]].
  - intros [H1 H2]. right. split; [lia|exact H2].
Qed.

Lemma legacy_mask_bits_witness :
  0 <= 1 < 2 ^ Z.of_nat 2
  /\ forall i, 0 <= i ->
       (Z.testbit 1 i = true
        <-> i < Z.of_nat 2
            /\ some_matches [JObj [(js "id", JStr (js "2"))];
                             JObj [(js "label", JStr (js "Basketball"))]] i = Some true).
Proof.
  refine (legacy_mask_bits
            (JObj [(js "items", JArr [JObj [(js "id", JStr (js "2"))];
                                      JObj [(js "label", JStr (js "Basketball"))]])])
            [JObj [(js "id", JStr (js "2"))]; JObj [(js "label", JStr (js "Basketball"))]]
            1 _ _ _ _).
  - intros q. vm_compute. discriminate.
  - vm_compute. reflexivity.
  - cbn. lia.
  - vm_compute. reflexivity.
Defined.
